(** * Masthead search and video player: view-state models and their properties

    The two stateful widgets of the library are embedded here:

    - [MastheadSearch]: the React search-with-autosuggest component
      (reducer, event handlers, locale effect);
    - [VideoPlayer]: the [dds-video-player] custom element
      (content state, caption, accessibility label).

    JavaScript strings are sequences of UTF-16 code units, so that
    [.length], [.trim()] and [encodeURIComponent] mean what they mean in the
    browser. *)

From Stdlib Require Import ZArith List String Ascii Bool Lia.
Import ListNotations.

Set Implicit Arguments.

(* ------------------------------------------------------------------ *)
(** ** JavaScript values used by the components *)

Module JS.

Local Open Scope Z_scope.

(** A string is its list of UTF-16 code units. *)
Definition jsstring := list Z.

(** An ASCII literal as a JavaScript string. *)
Definition lit (s : string) : jsstring :=
  map (fun c => Z.of_N (N_of_ascii c)) (list_ascii_of_string s).

Definition length (s : jsstring) : Z := Z.of_nat (List.length s).

(** A string is truthy when it is not empty. *)
Definition truthy (s : jsstring) : bool :=
  match s with [] => false | _ :: _ => true end.

(** [a || b] on strings. *)
Definition or_else (a b : jsstring) : jsstring :=
  if truthy a then a else b.

Definition eqb (a b : jsstring) : bool :=
  if list_eq_dec Z.eq_dec a b then true else false.

(** The result of awaiting a remote call. *)
Inductive reply (A : Type) : Type :=
| Value (a : A)
| Undefined
| Rejected.
Arguments Undefined {A}.
Arguments Rejected {A}.

(** White space and line terminators, the characters [trim] strips. *)
Definition isWhiteSpace (c : Z) : bool :=
  ((9 <=? c) && (c <=? 13))
  || (c =? 32) || (c =? 160) || (c =? 5760)
  || ((8192 <=? c) && (c <=? 8202))
  || (c =? 8232) || (c =? 8233) || (c =? 8239) || (c =? 8287)
  || (c =? 12288) || (c =? 65279).

Fixpoint trimStart (s : jsstring) : jsstring :=
  match s with
  | [] => []
  | c :: r => if isWhiteSpace c then trimStart r else s
  end.

Definition trimEnd (s : jsstring) : jsstring := rev (trimStart (rev s)).

Definition trim (s : jsstring) : jsstring := trimEnd (trimStart s).

(** *** [encodeURIComponent] *)

Definition inRange (lo hi c : Z) : bool := (lo <=? c) && (c <=? hi).

(** Letters, digits and the marks [- _ . ! ~ * ' ( )] are kept as they are. *)
Definition uriUnreserved (c : Z) : bool :=
  inRange 65 90 c || inRange 97 122 c || inRange 48 57 c
  || existsb (Z.eqb c) [45; 95; 46; 33; 126; 42; 39; 40; 41].

Definition isLeadSurrogate (c : Z) : bool := inRange 55296 56319 c.
Definition isTrailSurrogate (c : Z) : bool := inRange 56320 57343 c.

Definition codePoint (lead trail : Z) : Z :=
  (lead - 55296) * 1024 + (trail - 56320) + 65536.

(** The UTF-8 octets of a code point. *)
Definition utf8 (cp : Z) : list Z :=
  if cp <? 128 then [cp]
  else if cp <? 2048 then
    [192 + cp / 64; 128 + cp mod 64]
  else if cp <? 65536 then
    [224 + cp / 4096; 128 + (cp / 64) mod 64; 128 + cp mod 64]
  else
    [240 + cp / 262144; 128 + (cp / 4096) mod 64;
     128 + (cp / 64) mod 64; 128 + cp mod 64].

(** An upper-case hexadecimal digit. *)
Definition hexDigit (d : Z) : Z :=
  if d <? 10 then 48 + d else 55 + d.

(** [%XY] for one octet. *)
Definition percent (octet : Z) : jsstring :=
  [37; hexDigit (octet / 16); hexDigit (octet mod 16)].

Definition percentAll (octets : list Z) : jsstring :=
  flat_map percent octets.

(** [None] is the [URIError] raised on a lone surrogate. *)
Fixpoint encodeURIComponent (s : jsstring) : option jsstring :=
  match s with
  | [] => Some []
  | c :: r =>
      if uriUnreserved c then option_map (cons c) (encodeURIComponent r)
      else if isLeadSurrogate c then
        match r with
        | d :: r' =>
            if isTrailSurrogate d
            then option_map (app (percentAll (utf8 (codePoint c d))))
                            (encodeURIComponent r')
            else None
        | [] => None
        end
      else if isTrailSurrogate c then None
      else option_map (app (percentAll (utf8 c))) (encodeURIComponent r)
  end.

(** No code unit of the string is half of a broken surrogate pair. *)
Fixpoint wellFormed (s : jsstring) : bool :=
  match s with
  | [] => true
  | c :: r =>
      if isLeadSurrogate c then
        match r with
        | d :: r' => isTrailSurrogate d && wellFormed r'
        | [] => false
        end
      else negb (isTrailSurrogate c) && wellFormed r
  end.

(** A code unit is a 16-bit number; the output alphabet of percent-encoding
    is the unreserved characters and the percent sign. *)
Definition isCodeUnit (c : Z) : Prop := 0 <= c < 65536.

Definition inUriAlphabet (c : Z) : Prop :=
  uriUnreserved c = true \/ c = 37.

(** Lower-casing of ASCII text, for running the component on examples; the
    component itself is stated over any [toLowerCase]. *)
Definition asciiToLowerCase (s : jsstring) : jsstring :=
  map (fun c => if inRange 65 90 c then c + 32 else c) s.

End JS.

(* ------------------------------------------------------------------ *)
(** ** The masthead search component *)

Module MastheadSearch.

Import JS.
Local Open Scope string_scope.

(** A suggestion record carries a display name. *)
Record suggestion := { name : jsstring }.

(** The view state held by [useReducer]. *)
Record state := {
  val : jsstring;
  suggestions : list suggestion;
  prevSuggestions : list suggestion;
  suggestionContainerVisible : bool;
  isSearchOpen : bool;
  lc : jsstring;
  cc : jsstring;
}.

(** The payload object of an action; a reducer case reads one field of it. *)
Record payload := {
  payload_val : jsstring;
  payload_prevSuggestions : list suggestion;
  payload_lc : jsstring;
  payload_cc : jsstring;
}.

Record action := { type : string; payload_of : payload }.

Definition emptyPayload : payload :=
  {| payload_val := []; payload_prevSuggestions := [];
     payload_lc := []; payload_cc := [] |}.

(** The actions as the component dispatches them. *)
Definition setVal (v : jsstring) : action :=
  {| type := "setVal";
     payload_of := {| payload_val := v; payload_prevSuggestions := [];
                      payload_lc := []; payload_cc := [] |} |}.
Definition emptySuggestions : action :=
  {| type := "emptySuggestions"; payload_of := emptyPayload |}.
Definition setPrevSuggestions (l : list suggestion) : action :=
  {| type := "setPrevSuggestions";
     payload_of := {| payload_val := []; payload_prevSuggestions := l;
                      payload_lc := []; payload_cc := [] |} |}.
Definition setSuggestionsToPrevious : action :=
  {| type := "setSuggestionsToPrevious"; payload_of := emptyPayload |}.
Definition showSuggestionsContainer : action :=
  {| type := "showSuggestionsContainer"; payload_of := emptyPayload |}.
Definition hideSuggestionsContainer : action :=
  {| type := "hideSuggestionsContainer"; payload_of := emptyPayload |}.
Definition setSearchOpen : action :=
  {| type := "setSearchOpen"; payload_of := emptyPayload |}.
Definition setSearchClosed : action :=
  {| type := "setSearchClosed"; payload_of := emptyPayload |}.
Definition setLc (l : jsstring) : action :=
  {| type := "setLc";
     payload_of := {| payload_val := []; payload_prevSuggestions := [];
                      payload_lc := l; payload_cc := [] |} |}.
Definition setCc (c : jsstring) : action :=
  {| type := "setCc";
     payload_of := {| payload_val := []; payload_prevSuggestions := [];
                      payload_lc := []; payload_cc := c |} |}.

(** The ten action kinds the reducer names. *)
Definition actionKinds : list string :=
  [ "setVal"; "emptySuggestions"; "setPrevSuggestions";
    "setSuggestionsToPrevious"; "showSuggestionsContainer";
    "hideSuggestionsContainer"; "setSearchOpen"; "setSearchClosed";
    "setLc"; "setCc" ].

(** [Object.assign({}, state, { field: v })], one definition per field. *)
Definition assign_val (s : state) (v : jsstring) : state :=
  {| val := v; suggestions := suggestions s;
     prevSuggestions := prevSuggestions s;
     suggestionContainerVisible := suggestionContainerVisible s;
     isSearchOpen := isSearchOpen s; lc := lc s; cc := cc s |}.
Definition assign_suggestions (s : state) (l : list suggestion) : state :=
  {| val := val s; suggestions := l;
     prevSuggestions := prevSuggestions s;
     suggestionContainerVisible := suggestionContainerVisible s;
     isSearchOpen := isSearchOpen s; lc := lc s; cc := cc s |}.
Definition assign_prevSuggestions (s : state) (l : list suggestion) : state :=
  {| val := val s; suggestions := suggestions s;
     prevSuggestions := l;
     suggestionContainerVisible := suggestionContainerVisible s;
     isSearchOpen := isSearchOpen s; lc := lc s; cc := cc s |}.
Definition assign_suggestionContainerVisible (s : state) (b : bool) : state :=
  {| val := val s; suggestions := suggestions s;
     prevSuggestions := prevSuggestions s;
     suggestionContainerVisible := b;
     isSearchOpen := isSearchOpen s; lc := lc s; cc := cc s |}.
Definition assign_isSearchOpen (s : state) (b : bool) : state :=
  {| val := val s; suggestions := suggestions s;
     prevSuggestions := prevSuggestions s;
     suggestionContainerVisible := suggestionContainerVisible s;
     isSearchOpen := b; lc := lc s; cc := cc s |}.
Definition assign_lc (s : state) (l : jsstring) : state :=
  {| val := val s; suggestions := suggestions s;
     prevSuggestions := prevSuggestions s;
     suggestionContainerVisible := suggestionContainerVisible s;
     isSearchOpen := isSearchOpen s; lc := l; cc := cc s |}.
Definition assign_cc (s : state) (c : jsstring) : state :=
  {| val := val s; suggestions := suggestions s;
     prevSuggestions := prevSuggestions s;
     suggestionContainerVisible := suggestionContainerVisible s;
     isSearchOpen := isSearchOpen s; lc := lc s; cc := c |}.

(** The reducer: a [switch] on the action's type string. *)
Definition _reducer (st : state) (act : action) : state :=
  let t := type act in
  let p := payload_of act in
  if t =? "setVal" then assign_val st (payload_val p)
  else if t =? "emptySuggestions" then assign_suggestions st []
  else if t =? "setPrevSuggestions"
    then assign_prevSuggestions st (payload_prevSuggestions p)
  else if t =? "setSuggestionsToPrevious"
    then assign_suggestions st (prevSuggestions st)
  else if t =? "showSuggestionsContainer"
    then assign_suggestionContainerVisible st true
  else if t =? "hideSuggestionsContainer"
    then assign_suggestionContainerVisible st false
  else if t =? "setSearchOpen" then assign_isSearchOpen st true
  else if t =? "setSearchClosed" then assign_isSearchOpen st false
  else if t =? "setLc" then assign_lc st (payload_lc p)
  else if t =? "setCc" then assign_cc st (payload_cc p)
  else st.

(** The props the component reads. *)
Record props := {
  placeHolderText : jsstring;
  initialSearchTerm : jsstring;
  renderValue : Z;
  searchOpenOnload : bool;
  searchNoRedirect : bool;
  customTypeaheadApi : option (jsstring -> reply (list suggestion));
}.

Definition defaultProps : props :=
  {| placeHolderText := lit "Search all of IBM";
     initialSearchTerm := [];
     renderValue := 3;
     searchOpenOnload := false;
     searchNoRedirect := false;
     customTypeaheadApi := None |}.

(** What reading the [q] parameter of the page URL comes to. *)
Inductive queryLookup :=
| QueryValue (v : jsstring)
| QueryMissing
| QueryThrows.

(** [getValueFromQueryString]: the parameter, [None] (null) when the URL has
    none, the empty string when reading it throws. *)
Definition getValueFromQueryString (q : queryLookup) : option jsstring :=
  match q with
  | QueryValue v => Some v
  | QueryMissing => None
  | QueryThrows => Some []
  end.

Definition _initialState (p : props) (q : queryLookup) : state :=
  {| val := or_else (initialSearchTerm p)
              (or_else (match getValueFromQueryString q with
                        | Some v => v
                        | None => []
                        end) []);
     suggestions := [];
     prevSuggestions := [];
     suggestionContainerVisible := false;
     isSearchOpen := searchOpenOnload p;
     lc := lit "en";
     cc := lit "us" |}.

(** *** Commands issued by the handlers

    A handler reads the state of the render it was created in and issues
    commands: reducer dispatches, DOM events, navigation, remote calls. *)

Record customEvent := {
  eventName : string;
  bubbles : bool;
  detail : option jsstring;
}.

Inductive jserror := URIError | TypeError | Rejection.

Inductive cmd :=
| Dispatch (a : action)
| DispatchEvent (e : customEvent)
| PreventDefault
| SetLocationHref (href : jsstring)
| FocusSearchIcon
| CallCustomTypeahead (searchValue : jsstring)
| CallGetResults (searchValue : jsstring)
| CallGetLang
| Throw (e : jserror).

(** The request object Autosuggest passes to the fetch callback. *)
Record request := { value : jsstring; reason : string }.

(** What [LocaleAPI.getLang] resolves to. *)
Record localeResponse := { response_lc : jsstring; response_cc : jsstring }.

(** A click seen by the document listener: whether the search node has a
    masthead ancestor, and whether that ancestor contains the target. *)
Record click := { mastheadFound : bool; mastheadContainsTarget : bool }.

(** The abort controller of the locale effect, reduced to its flag. *)
Record abortController := { aborted : bool }.

Definition newAbortController : abortController := {| aborted := false |}.

Definition abort (c : abortController) : abortController :=
  {| aborted := true |}.

(** The active list is empty or is the cache. *)
Definition listIsEmptyOrCache (st : state) : Prop :=
  suggestions st = [] \/ suggestions st = prevSuggestions st.

(** *** The page around the component *)

Record window := {
  locationHref : jsstring;
  heard : list customEvent;
  store : state;
}.

Definition exec (w : window) (c : cmd) : window :=
  match c with
  | Dispatch a =>
      {| locationHref := locationHref w; heard := heard w;
         store := _reducer (store w) a |}
  | DispatchEvent e =>
      {| locationHref := locationHref w; heard := (heard w ++ [e])%list;
         store := store w |}
  | SetLocationHref href =>
      {| locationHref := href; heard := heard w; store := store w |}
  | _ => w
  end.

(** Commands run in order; a thrown error ends the handler. *)
Fixpoint run (w : window) (cmds : list cmd) : window :=
  match cmds with
  | [] => w
  | Throw _ :: _ => w
  | c :: r => run (exec w c) r
  end.

Definition isRemoteCall (c : cmd) : bool :=
  match c with
  | CallCustomTypeahead _ | CallGetResults _ | CallGetLang => true
  | _ => false
  end.

Definition isDispatch (c : cmd) : bool :=
  match c with Dispatch _ => true | _ => false end.

Definition eventsOf (cmds : list cmd) : list customEvent :=
  flat_map (fun c => match c with DispatchEvent e => [e] | _ => [] end) cmds.

Definition navigationsOf (cmds : list cmd) : list jsstring :=
  flat_map (fun c => match c with SetLocationHref h => [h] | _ => [] end)
           cmds.

(** What the user or the environment does to a mounted component. *)
Inductive event :=
| InputChange (newValue : jsstring)
| InputKeyDown (key : string)
| SearchIconClick
| CloseButtonClick (iconFound : bool)
| SuggestionsFetchRequested
    (getResults : jsstring -> reply (list suggestion)) (r : request)
| SuggestionsClearRequested
| SuggestionSelected (suggestionValue : jsstring)
| DocumentKeyDown (key : string)
| DocumentClick (c : click)
| LocaleResolved (response : reply localeResponse).

Record instance := { page : window; controller : abortController }.

Section Handlers.

(** String helpers imported from outside the component. *)
Variable toLowerCase : jsstring -> jsstring.
Variable escapeRegExp : jsstring -> jsstring.
(** [process.env.SEARCH_REDIRECT_ENDPOINT], when set. *)
Variable SEARCH_REDIRECT_ENDPOINT : option jsstring.

Definition _redirectUrl : jsstring :=
  or_else (match SEARCH_REDIRECT_ENDPOINT with
           | Some e => e
           | None => []
           end)
          (lit "https://www.ibm.com/search?lnk=mhsrch").

Definition _trimAndLower (valueString : jsstring) : jsstring :=
  trim (toLowerCase valueString).

Variable p : props.

Definition onSearchNoRedirect (v : jsstring) : list cmd :=
  [ DispatchEvent {| eventName := "onSearchNoRedirect";
                     bubbles := true; detail := Some v |} ].

Definition onChange (newValue : jsstring) : list cmd :=
  [ DispatchEvent {| eventName := "onSearchValueChanged";
                     bubbles := true; detail := Some newValue |};
    Dispatch (setVal newValue) ].

Definition onKeyDown (st : state) (key : string) : list cmd :=
  if key =? "Enter" then
    if searchNoRedirect p
    then (onSearchNoRedirect (val st) ++ [PreventDefault])%list
    else []
  else [].

(** The redirect string; [None] when [encodeURIComponent] throws. *)
Definition getRedirect (st : state) (v : jsstring) : option jsstring :=
  option_map
    (fun q => (_redirectUrl ++ lit "&q=" ++ q
               ++ lit "&lang=" ++ lc st ++ lit "&cc=" ++ cc st)%list)
    (encodeURIComponent v).

(** [root.parent.location.href = getRedirect(v)]. *)
Definition redirectTo (st : state) (v : jsstring) : list cmd :=
  match getRedirect st v with
  | Some href => [SetLocationHref href]
  | None => [Throw URIError]
  end.

Definition searchIconClick (st : state) : list cmd :=
  ((if negb (isSearchOpen st)
   then [ DispatchEvent {| eventName := "onOpenSearch";
                           bubbles := true; detail := None |} ]
   else [])
  ++ (if isSearchOpen st
      then [ DispatchEvent {| eventName := "onSearchButtonClicked";
                              bubbles := true; detail := Some (val st) |} ]
      else [])
  ++ (if isSearchOpen st && negb (length (val st) =? 0)%Z
      then if searchNoRedirect p
           then onSearchNoRedirect (val st)
           else redirectTo st (val st)
      else [Dispatch setSearchOpen]))%list.

Definition resetSearch : list cmd :=
  [ Dispatch setSearchClosed; Dispatch (setVal []) ].

(** [iconFound]: the query for the search icon returned a node. *)
Definition closeBtnAction (iconFound : bool) : list cmd :=
  ([ DispatchEvent {| eventName := "onSearchCloseClicked";
                     bubbles := true; detail := None |} ]
  ++ resetSearch
  ++ (if iconFound then [FocusSearchIcon] else [Throw TypeError]))%list.

Definition onSuggestionsClearedRequested : list cmd :=
  [ Dispatch emptySuggestions; Dispatch hideSuggestionsContainer ].

(** The provider that answers an input change, and the call made to it. *)
Definition callTypeahead
    (getResults : jsstring -> reply (list suggestion))
    (searchValue : jsstring) : cmd * reply (list suggestion) :=
  match customTypeaheadApi p with
  | Some api => (CallCustomTypeahead searchValue, api searchValue)
  | None => (CallGetResults searchValue, getResults searchValue)
  end.

Definition onSuggestionsFetchRequest
    (getResults : jsstring -> reply (list suggestion))
    (request : request) : list cmd :=
  let searchValue := _trimAndLower (escapeRegExp (value request)) in
  if reason request =? "input-changed" then
    let (call, response) := callTypeahead getResults searchValue in
    call ::
    match response with
    | Value r =>
        [ Dispatch (setPrevSuggestions r);
          Dispatch setSuggestionsToPrevious;
          Dispatch showSuggestionsContainer ]
    | Undefined => []
    | Rejected => [Throw Rejection]
    end
  else if reason request =? "escape-pressed" then
    onSuggestionsClearedRequested
  else
    [ Dispatch setSuggestionsToPrevious;
      Dispatch showSuggestionsContainer ].

(** The normalised text of a request, and the answer of the provider in
    charge of it: the caller's when there is one, the remote one otherwise. *)
Definition searchValueOf (r : request) : jsstring :=
  _trimAndLower (escapeRegExp (value r)).

Definition providerReply
    (getResults : jsstring -> reply (list suggestion)) (r : request)
  : reply (list suggestion) :=
  snd (callTypeahead getResults (searchValueOf r)).

Definition onSuggestionSelected (st : state) (suggestionValue : jsstring)
  : list cmd :=
  if searchNoRedirect p
  then (onSearchNoRedirect suggestionValue ++ [PreventDefault])%list
  else redirectTo st suggestionValue.

Definition shouldRenderSuggestions (v : jsstring) : bool :=
  (renderValue p <=? length (trim v))%Z.

Definition handleHideSearch (st : state) (key : string) : list cmd :=
  if key =? "Escape" then
    if negb (suggestionContainerVisible st)
    then [Dispatch setSearchClosed]
    else []
  else [].

Definition handleClickOutside (st : state) (c : click) : list cmd :=
  if mastheadFound c && negb (mastheadContainsTarget c) then
    if (length (val st) =? 0)%Z
    then [Dispatch setSearchClosed]
    else []
  else [].

(** The locale effect: what runs on mount, what runs when the call
    resolves, and the clean-up that runs on unmount. *)
Definition localeEffect_mount : abortController * list cmd :=
  let abortController := newAbortController in
  let abortController := abort abortController in
  (abortController, [CallGetLang]).

Definition localeEffect_resolved
    (c : abortController) (response : reply localeResponse) : list cmd :=
  match response with
  | Value r =>
      if negb (aborted c)
      then [ Dispatch (setLc (response_lc r));
             Dispatch (setCc (response_cc r)) ]
      else []
  | Undefined => []
  | Rejected => [Throw Rejection]
  end.

Definition localeEffect_cleanup (c : abortController) : abortController :=
  abort c.

(** *** The component as a transition system *)

Definition handle (c : abortController) (st : state) (e : event)
  : list cmd :=
  match e with
  | InputChange newValue => onChange newValue
  | InputKeyDown key => onKeyDown st key
  | SearchIconClick => searchIconClick st
  | CloseButtonClick iconFound => closeBtnAction iconFound
  | SuggestionsFetchRequested getResults r =>
      onSuggestionsFetchRequest getResults r
  | SuggestionsClearRequested => onSuggestionsClearedRequested
  | SuggestionSelected v => onSuggestionSelected st v
  | DocumentKeyDown key => handleHideSearch st key
  | DocumentClick k => handleClickOutside st k
  | LocaleResolved response => localeEffect_resolved c response
  end.

Definition mount (q : queryLookup) (href : jsstring)
  : instance :=
  {| page := {| locationHref := href; heard := [];
                store := _initialState p q |};
     controller := fst localeEffect_mount |}.

Definition step (i : instance) (e : event) : instance :=
  {| page := run (page i) (handle (controller i) (store (page i)) e);
     controller := controller i |}.

Definition unmount (i : instance) : instance :=
  {| page := page i;
     controller := localeEffect_cleanup (controller i) |}.

Definition steps (i : instance) (es : list event) : instance :=
  fold_left step es i.

End Handlers.

(** *** Example inputs *)

Definition emptyWindow (st : state) : window :=
  {| locationHref := lit "https://www.ibm.com/"; heard := []; store := st |}.

Definition cloudComputing : list suggestion :=
  [ {| name := lit "Cloud Computing" |} ].

(** An open widget holding [v], with the panel flag as given. *)
Definition openWith (v : jsstring) (panel : bool) : state :=
  {| val := v; suggestions := []; prevSuggestions := [];
     suggestionContainerVisible := panel; isSearchOpen := true;
     lc := lit "en"; cc := lit "us" |}.

(** Props with a caller-supplied provider that always answers the same. *)
Definition customProviderProps : props :=
  {| placeHolderText := lit "Search all of IBM";
     initialSearchTerm := [];
     renderValue := 3;
     searchOpenOnload := false;
     searchNoRedirect := false;
     customTypeaheadApi :=
       Some (fun _ => Value [ {| name := lit "Cloud Computing" |} ]) |}.

(** Props with an initial search term, and props whose gate is at zero. *)
Definition seededProps : props :=
  {| placeHolderText := lit "Search all of IBM";
     initialSearchTerm := lit "watson";
     renderValue := 3;
     searchOpenOnload := true;
     searchNoRedirect := false;
     customTypeaheadApi := None |}.

Definition eagerProps : props :=
  {| placeHolderText := lit "Search all of IBM";
     initialSearchTerm := [];
     renderValue := 0;
     searchOpenOnload := false;
     searchNoRedirect := false;
     customTypeaheadApi := None |}.

Definition noRedirectProps : props :=
  {| placeHolderText := lit "Search all of IBM";
     initialSearchTerm := [];
     renderValue := 3;
     searchOpenOnload := false;
     searchNoRedirect := true;
     customTypeaheadApi := None |}.

(** *** Summaries used to describe runs *)

(** The text an event leaves in the input, given the text before it. *)
Definition textAfter (v : jsstring) (e : event) : jsstring :=
  match e with
  | InputChange newValue => newValue
  | CloseButtonClick _ => []
  | _ => v
  end.

(** The fields of the view state, and the one a reducer case assigns. *)
Inductive field :=
| FVal | FSuggestions | FPrevSuggestions | FSuggestionContainerVisible
| FIsSearchOpen | FLc | FCc.

Definition assigns (t : string) : option field :=
  if t =? "setVal" then Some FVal
  else if t =? "emptySuggestions" then Some FSuggestions
  else if t =? "setPrevSuggestions" then Some FPrevSuggestions
  else if t =? "setSuggestionsToPrevious" then Some FSuggestions
  else if t =? "showSuggestionsContainer" then Some FSuggestionContainerVisible
  else if t =? "hideSuggestionsContainer" then Some FSuggestionContainerVisible
  else if t =? "setSearchOpen" then Some FIsSearchOpen
  else if t =? "setSearchClosed" then Some FIsSearchOpen
  else if t =? "setLc" then Some FLc
  else if t =? "setCc" then Some FCc
  else None.

(** A string that neither starts nor ends with white space. *)
Definition trimmed (s : jsstring) : Prop :=
  (forall c r, s = c :: r -> isWhiteSpace c = false)
  /\ (forall r c, s = (r ++ [c])%list -> isWhiteSpace c = false).

(** The characters that would end or extend a query parameter. *)
Definition uriDelimiters : list Z :=
  [38; 61; 35; 63; 47; 43; 32]%Z.

End MastheadSearch.

(* ------------------------------------------------------------------ *)
(** ** The video player element *)

Module VideoPlayer.

Import JS.
Local Open Scope string_scope.

(** Modelled from the spec: the enumeration [VIDEO_PLAYER_CONTENT_STATE]
    of [./defs], which is not among the sources; its two members are the
    ones the element uses. *)
Inductive VIDEO_PLAYER_CONTENT_STATE := THUMBNAIL | VIDEO.

(** The reactive properties of the element, and its [aria-label]
    attribute. *)
Record element := {
  contentState : VIDEO_PLAYER_CONTENT_STATE;
  duration : option Z;
  formatCaption : option jsstring -> jsstring -> jsstring;
  formatDuration : option Z -> option jsstring;
  hideCaption : bool;
  name : jsstring;
  thumbnailUrl : jsstring;
  videoId : option jsstring;
  aspectRatio : option jsstring;
  ariaLabel : option jsstring;
}.

(** The detail of the content-state event. *)
Record stateChange := {
  eventName : string;
  bubbles : bool;
  composed : bool;
  detail_videoId : option jsstring;
  detail_contentState : VIDEO_PLAYER_CONTENT_STATE;
}.

(** What [_renderContent] produces. *)
Inductive content :=
| ImageOverlay (defaultSrc : jsstring) (alt : jsstring)
| Slot.

(** What [render] produces: whether the aspect-ratio class is on, the
    content, and the caption text when it is not hidden. *)
Record view := {
  aspectRatioClass : bool;
  viewContent : content;
  captionText : option jsstring;
}.

Definition set_contentState (el : element) (c : VIDEO_PLAYER_CONTENT_STATE)
  : element :=
  {| contentState := c; duration := duration el;
     formatCaption := formatCaption el;
     formatDuration := formatDuration el;
     hideCaption := hideCaption el; name := name el;
     thumbnailUrl := thumbnailUrl el; videoId := videoId el;
     aspectRatio := aspectRatio el; ariaLabel := ariaLabel el |}.

Definition setAttribute_ariaLabel (el : element) (v : jsstring) : element :=
  {| contentState := contentState el; duration := duration el;
     formatCaption := formatCaption el;
     formatDuration := formatDuration el;
     hideCaption := hideCaption el; name := name el;
     thumbnailUrl := thumbnailUrl el; videoId := videoId el;
     aspectRatio := aspectRatio el; ariaLabel := Some v |}.

(** [changedProperties.has(key)]. *)
Definition has (changedProperties : list string) (key : string) : bool :=
  existsb (String.eqb key) changedProperties.

(** [!duration ? duration : duration * 1000]. *)
Definition milliseconds (duration : option Z) : option Z :=
  match duration with
  | None => None
  | Some d => if (d =? 0)%Z then Some d else Some (d * 1000)%Z
  end.

(** The caption both [render] and [updated] compute. *)
Definition caption (el : element) : jsstring :=
  formatCaption el (formatDuration el (milliseconds (duration el)))
                (name el).

(** A caption formatter in the style of the default one: the name, then the
    duration in parentheses, each left out when empty, joined by a space. *)
Definition nameThenDuration (duration : option jsstring) (name : jsstring)
  : jsstring :=
  match duration with
  | Some d =>
      if truthy d
      then if truthy name
           then (name ++ lit " (" ++ d ++ lit ")")%list
           else (lit "(" ++ d ++ lit ")")%list
      else name
  | None => name
  end.

(** A player with a name, a duration and a video id, for examples. *)
Definition introPlayer : element :=
  {| contentState := THUMBNAIL;
     duration := Some 90%Z;
     formatCaption := nameThenDuration;
     formatDuration :=
       fun d => match d with Some _ => Some (lit "1:30") | None => None end;
     hideCaption := false;
     name := lit "Intro";
     thumbnailUrl := lit "thumb.png";
     videoId := Some (lit "0_uka1msg4");
     aspectRatio := None;
     ariaLabel := None |}.

Section Element.

(** The stable prefix of the design-system settings and the default
    formatters, imported from other packages. *)
Variable ddsPrefix : string.
Variable formatVideoCaption : option jsstring -> jsstring -> jsstring.
Variable formatVideoDuration : option Z -> option jsstring.

Definition eventContentStateChange : string :=
  ddsPrefix ++ "-video-player-content-state-changed".

(** The element as its field initialisers leave it. *)
Definition initial : element :=
  {| contentState := THUMBNAIL;
     duration := None;
     formatCaption := formatVideoCaption;
     formatDuration := formatVideoDuration;
     hideCaption := false;
     name := [];
     thumbnailUrl :=
       (lit "data:image/svg+xml,%3Csvg xmlns=" ++ [34%Z]
        ++ lit "http://www.w3.org/2000/svg" ++ [34%Z]
        ++ lit "/%3E")%list;
     videoId := None;
     aspectRatio := None;
     ariaLabel := None |}.

Definition _handleClickOverlay (el : element)
  : element * list stateChange :=
  (set_contentState el VIDEO,
   [ {| eventName := eventContentStateChange;
        bubbles := true;
        composed := true;
        detail_videoId := videoId el;
        detail_contentState := VIDEO |} ]).

Definition _renderContent (el : element) : content :=
  match contentState el with
  | THUMBNAIL => ImageOverlay (thumbnailUrl el) (name el)
  | VIDEO => Slot
  end.

Definition render (el : element) : view :=
  {| aspectRatioClass :=
       match aspectRatio el with
       | Some r => truthy r
       | None => false
       end;
     viewContent := _renderContent el;
     captionText :=
       if hideCaption el then None else Some (caption el) |}.

Definition updated (el : element) (changedProperties : list string)
  : element :=
  if has changedProperties "duration"
     || has changedProperties "formatCaption"
     || has changedProperties "name"
  then
    let caption := caption el in
    if truthy caption then setAttribute_ariaLabel el caption else el
  else el.

(** The operations of the element: a click on the overlay, which exists
    only while the thumbnail is rendered, and the [updated] callback. *)
Inductive op :=
| ClickOverlay
| Updated (changedProperties : list string).

Inductive step : element -> op -> element -> list stateChange -> Prop :=
| step_click : forall el defaultSrc alt,
    _renderContent el = ImageOverlay defaultSrc alt ->
    step el ClickOverlay (fst (_handleClickOverlay el))
         (snd (_handleClickOverlay el))
| step_updated : forall el changedProperties,
    step el (Updated changedProperties) (updated el changedProperties) [].

(** Runs of the element, with the notifications they emit. *)
Inductive run : element -> list op -> element -> list stateChange -> Prop :=
| run_nil : forall el, run el [] el []
| run_cons : forall el o el' evs os el'' evs',
    step el o el' evs ->
    run el' os el'' evs' ->
    run el (o :: os) el'' (evs ++ evs')%list.

(** What the host page can do to the element: trigger its operations, or
    assign the public reflected [contentState] property, after which the
    [updated] callback runs for that property. *)
Inductive exposedOp :=
| Own (o : op)
| AssignContentState (c : VIDEO_PLAYER_CONTENT_STATE).

Inductive exposedStep
  : element -> exposedOp -> element -> list stateChange -> Prop :=
| exposed_own : forall el o el' evs,
    step el o el' evs -> exposedStep el (Own o) el' evs
| exposed_assign : forall el c,
    exposedStep el (AssignContentState c)
                (updated (set_contentState el c) ["contentState"]) [].

Inductive exposedRun
  : element -> list exposedOp -> element -> list stateChange -> Prop :=
| exposedRun_nil : forall el, exposedRun el [] el []
| exposedRun_cons : forall el o el' evs os el'' evs',
    exposedStep el o el' evs ->
    exposedRun el' os el'' evs' ->
    exposedRun el (o :: os) el'' (evs ++ evs')%list.

End Element.

(** *** The render root

    [createRenderRoot] asks for focus delegation when the number after
    [Safari/] in the user agent is at most 537, or when there is none. *)

Fixpoint startsWith (pattern s : jsstring) : bool :=
  match pattern, s with
  | [], _ => true
  | a :: pattern', b :: s' => (a =? b)%Z && startsWith pattern' s'
  | _ :: _, [] => false
  end.

Definition isDigit (c : Z) : bool := inRange 48 57 c.

(** The longest run of digits at the start of a string. *)
Fixpoint takeDigits (s : jsstring) : jsstring :=
  match s with
  | c :: r => if isDigit c then c :: takeDigits r else []
  | [] => []
  end.

(** [Number] of a string of decimal digits. *)
Definition numberOfDigits (ds : jsstring) : Z :=
  fold_left (fun acc d => acc * 10 + (d - 48))%Z ds 0%Z.

(** The first capture of the leftmost match of [Safari/] followed by one
    digit or more; [None] when nothing matches. *)
Fixpoint execSafari (s : jsstring) : option jsstring :=
  match s with
  | [] => None
  | _ :: r =>
      if startsWith (lit "Safari/") s
      then match takeDigits (skipn 7 s) with
           | [] => execSafari r
           | ds => Some ds
           end
      else execSafari r
  end.

(** The pattern matches at the very start of [s]: [Safari/] and then a
    digit. *)
Definition safariTokenAt (s : jsstring) : bool :=
  startsWith (lit "Safari/") s
  && match takeDigits (skipn 7 s) with
     | [] => false
     | _ :: _ => true
     end.

(** Some match starts inside [before], in the text [before ++ tail]. *)
Fixpoint tokenStartsWithin (before tail : jsstring) : bool :=
  match before with
  | [] => false
  | _ :: b => safariTokenAt (before ++ tail)%list || tokenStartsWithin b tail
  end.

(** The [delegatesFocus] option of the shadow root. *)
Definition createRenderRoot (userAgent : jsstring) : bool :=
  match execSafari userAgent with
  | Some ds => (numberOfDigits ds <=? 537)%Z
  | None => (0 <=? 537)%Z
  end.

End VideoPlayer.

(* ------------------------------------------------------------------ *)
(** ** The lead space element *)

Module LeadSpace.

Import JS.
Local Open Scope string_scope.

(** The members of the enumerations of [./defs], which is not among the
    sources, as the element compares them with its properties. *)
Record defs := {
  LEADSPACE_TYPE_LEFT : jsstring;
  LEADSPACE_TYPE_CENTERED : jsstring;
  LEADSPACE_TYPE_SMALL : jsstring;
  LEADSPACE_GRADIENT_STYLE_SCHEME_NONE : jsstring;
  LEADSPACE_GRADIENT_STYLE_SCHEME_WITH_GRADIENT : jsstring;
  LEADSPACE_SIZE_NONE : jsstring;
  LEADSPACE_SIZE_MEDIUM : jsstring;
}.

(** The reactive properties of the element. *)
Record element := {
  alt : jsstring;
  defaultSrc : jsstring;
  copy : jsstring;
  gradientStyleScheme : jsstring;
  title : jsstring;
  type : jsstring;
  size : jsstring;
}.

(** [classMap]: the class names whose condition holds, in order. *)
Definition classMap (entries : list (string * bool)) : list string :=
  map fst (filter snd entries).

(** What [_renderImage] produces. *)
Inductive image :=
| MobileImage (src : jsstring) (alt : jsstring)
| ImageSlot.

(** What [render] produces: the style and classes of the nested nodes, the
    offsets of the gradient stops when the gradient is drawn, the fallback
    texts of the heading and copy slots, and the image. *)
Record view := {
  sectionStyle : jsstring;
  sectionClass : list string;
  containerClass : list string;
  overlayClass : list string;
  gradientStops : option (list string);
  contentClass : list string;
  headingFallback : jsstring;
  copyClass : list string;
  copyFallback : jsstring;
  imageNode : image;
}.

Section Element.

Variable prefix ddsPrefix : string.
Variable d : defs.

Definition initial : element :=
  {| alt := [];
     defaultSrc := [];
     copy := [];
     gradientStyleScheme := LEADSPACE_GRADIENT_STYLE_SCHEME_WITH_GRADIENT d;
     title := [];
     type := LEADSPACE_TYPE_LEFT d;
     size := lit "tall" |}.

Definition _getBackgroundImage (el : element) : jsstring :=
  if truthy (defaultSrc el) && eqb (type el) (LEADSPACE_TYPE_CENTERED d)
  then (lit "background-image: url(" ++ defaultSrc el ++ lit ")")%list
  else [].

Definition _getGradientClass (el : element) : list string :=
  classMap
    [ (prefix ++ "--leadspace--gradient",
       eqb (gradientStyleScheme el)
           (LEADSPACE_GRADIENT_STYLE_SCHEME_WITH_GRADIENT d));
      (prefix ++ "--leadspace__overlay", true) ].

Definition _getTypeClass (el : element) : list string :=
  classMap
    [ (prefix ++ "--leadspace--centered",
       eqb (type el) (LEADSPACE_TYPE_CENTERED d));
      (prefix ++ "--leadspace--centered__image",
       eqb (type el) (LEADSPACE_TYPE_CENTERED d) && truthy (defaultSrc el));
      (prefix ++ "--leadspace--productive",
       eqb (type el) (LEADSPACE_TYPE_SMALL d));
      (prefix ++ "--leadspace__section", true) ].

Definition _getContainerClass (el : element) : list string :=
  classMap
    [ (prefix ++ "--leadspace__container--medium",
       eqb (size el) (LEADSPACE_SIZE_MEDIUM d));
      (prefix ++ "--leadspace__container",
       eqb (size el) (LEADSPACE_SIZE_NONE d)) ].

Definition _getCopyType (el : element) : list string :=
  classMap
    [ (prefix ++ "--leadspace__desc--medium",
       eqb (size el) (LEADSPACE_SIZE_MEDIUM d));
      (prefix ++ "--leadspace__desc",
       eqb (size el) (LEADSPACE_SIZE_NONE d)) ].

Definition _getContentType (el : element) : list string :=
  classMap
    [ (prefix ++ "--leadspace--content__container",
       eqb (size el) (LEADSPACE_SIZE_NONE d));
      (prefix ++ "--leadspace--content__container--medium",
       eqb (size el) (LEADSPACE_SIZE_MEDIUM d)) ].

Definition _renderHeading (el : element) : jsstring := title el.

Definition _renderCopy (el : element) : list string * jsstring :=
  (_getCopyType el, copy el).

Definition _renderImage (el : element) : image :=
  if truthy (defaultSrc el) && eqb (type el) (LEADSPACE_TYPE_CENTERED d)
  then MobileImage (defaultSrc el) (alt el)
  else ImageSlot.

Definition render (el : element) : view :=
  {| sectionStyle := _getBackgroundImage el;
     sectionClass := _getTypeClass el;
     containerClass := _getContainerClass el;
     overlayClass := _getGradientClass el;
     gradientStops :=
       if eqb (gradientStyleScheme el)
              (LEADSPACE_GRADIENT_STYLE_SCHEME_NONE d)
       then None
       else Some (if eqb (type el) (LEADSPACE_TYPE_CENTERED d)
                  then ["0%"; "27%"; "53%"; "80%"]
                  else ["0%"; "50%"; "75%"]);
     contentClass := _getContentType el;
     headingFallback := _renderHeading el;
     copyClass := fst (_renderCopy el);
     copyFallback := snd (_renderCopy el);
     imageNode := _renderImage el |}.

Definition headingSelector : string := ddsPrefix ++ "-leadspace-heading".

Definition stableSelector : string := ddsPrefix ++ "--leadspace".

End Element.

(** *** Example inputs *)

(** Enumeration members as plain words, for running the element. *)
Definition wordDefs : defs :=
  {| LEADSPACE_TYPE_LEFT := lit "left";
     LEADSPACE_TYPE_CENTERED := lit "centered";
     LEADSPACE_TYPE_SMALL := lit "small";
     LEADSPACE_GRADIENT_STYLE_SCHEME_NONE := lit "none";
     LEADSPACE_GRADIENT_STYLE_SCHEME_WITH_GRADIENT := lit "with-gradient";
     LEADSPACE_SIZE_NONE := [];
     LEADSPACE_SIZE_MEDIUM := lit "medium" |}.

Definition centeredWithImage : element :=
  {| alt := lit "A skyline";
     defaultSrc := lit "hero.jpg";
     copy := lit "Copy";
     gradientStyleScheme := lit "with-gradient";
     title := lit "Title";
     type := lit "centered";
     size := lit "medium" |}.

End LeadSpace.

(* ------------------------------------------------------------------ *)
(** ** The callout-quote visual test *)

Module CalloutQuoteE2E.

Import JS.

(** The two environment variables the test reads. *)
Record env := {
  WEBCOMPONENTS_TESTS : option jsstring;
  SELENIUM_HOST : option jsstring;
}.

Definition _webcomponentsTests (e : env) : bool :=
  match WEBCOMPONENTS_TESTS e with
  | Some v => eqb v (lit "true")
  | None => false
  end.

Definition _urlDefault (e : env) : jsstring :=
  if _webcomponentsTests e
  then lit "https://ibmdotcom-web-components-canary.mybluemix.net"
  else lit "https://ibmdotcom-react-canary.mybluemix.net".

Definition _url (e : env) : jsstring :=
  or_else (match SELENIUM_HOST e with
           | Some host => host
           | None => []
           end)
          (_urlDefault e).

Definition _pathDefault : jsstring :=
  lit "/iframe.html?id=components-calloutquote--default".

(** What one theme scenario does with the browser. *)
Inductive action :=
| NewPage
| Goto (url : jsstring) (timeout : Z)
| SetTheme (theme : jsstring)
| Snapshot (name : jsstring) (widths : list Z).

Definition loadTheme (e : env) (theme : jsstring) : list action :=
  [ NewPage;
    Goto (_url e ++ _pathDefault) 100000;
    SetTheme theme;
    Snapshot (lit "Components|Callout quote: " ++ theme ++ lit " theme")
             [320; 1280]%Z ].

(** The three scenarios, in the order of the file. *)
Definition scenarios (e : env) : list (list action) :=
  [ loadTheme e (lit "g100"); loadTheme e (lit "g90");
    loadTheme e (lit "g10") ].

End CalloutQuoteE2E.

(* ------------------------------------------------------------------ *)
(** ** Properties of the masthead search *)

Module SearchFacts.

Import JS MastheadSearch.
Local Open Scope string_scope.

(** Case analysis on the type string, in the order of the [switch]. *)
Ltac by_kind t :=
  repeat match goal with
  | |- context [String.eqb t ?k] =>
      destruct (String.eqb_spec t k); [ subst t | ]; cbv iota
  end.

Lemma reducer_cases (st : state) (t : string) (p : payload) :
  let st' := _reducer st {| type := t; payload_of := p |} in
  (t = "setVal" /\ st' = assign_val st (payload_val p))
  \/ (t = "emptySuggestions" /\ st' = assign_suggestions st [])
  \/ (t = "setPrevSuggestions"
      /\ st' = assign_prevSuggestions st (payload_prevSuggestions p))
  \/ (t = "setSuggestionsToPrevious"
      /\ st' = assign_suggestions st (prevSuggestions st))
  \/ (t = "showSuggestionsContainer"
      /\ st' = assign_suggestionContainerVisible st true)
  \/ (t = "hideSuggestionsContainer"
      /\ st' = assign_suggestionContainerVisible st false)
  \/ (t = "setSearchOpen" /\ st' = assign_isSearchOpen st true)
  \/ (t = "setSearchClosed" /\ st' = assign_isSearchOpen st false)
  \/ (t = "setLc" /\ st' = assign_lc st (payload_lc p))
  \/ (t = "setCc" /\ st' = assign_cc st (payload_cc p))
  \/ (~ In t actionKinds /\ st' = st).
Proof.
  unfold _reducer; cbn [type payload_of]; by_kind t; auto 20.
  do 10 right. split; [ | reflexivity ].
  unfold actionKinds; cbn [In]; intuition congruence.
Qed.

(** The reducer on each action the component dispatches. *)
Lemma reducer_setVal st v : _reducer st (setVal v) = assign_val st v.
Proof. reflexivity. Qed.
Lemma reducer_emptySuggestions st :
  _reducer st emptySuggestions = assign_suggestions st [].
Proof. reflexivity. Qed.
Lemma reducer_setPrevSuggestions st l :
  _reducer st (setPrevSuggestions l) = assign_prevSuggestions st l.
Proof. reflexivity. Qed.
Lemma reducer_setSuggestionsToPrevious st :
  _reducer st setSuggestionsToPrevious
  = assign_suggestions st (prevSuggestions st).
Proof. reflexivity. Qed.
Lemma reducer_showSuggestionsContainer st :
  _reducer st showSuggestionsContainer
  = assign_suggestionContainerVisible st true.
Proof. reflexivity. Qed.
Lemma reducer_hideSuggestionsContainer st :
  _reducer st hideSuggestionsContainer
  = assign_suggestionContainerVisible st false.
Proof. reflexivity. Qed.
Lemma reducer_setSearchOpen st :
  _reducer st setSearchOpen = assign_isSearchOpen st true.
Proof. reflexivity. Qed.
Lemma reducer_setSearchClosed st :
  _reducer st setSearchClosed = assign_isSearchOpen st false.
Proof. reflexivity. Qed.
Lemma reducer_setLc st l : _reducer st (setLc l) = assign_lc st l.
Proof. reflexivity. Qed.
Lemma reducer_setCc st c : _reducer st (setCc c) = assign_cc st c.
Proof. reflexivity. Qed.

Create Rewrite HintDb reducer.
#[local] Hint Rewrite reducer_setVal reducer_emptySuggestions
  reducer_setPrevSuggestions reducer_setSuggestionsToPrevious
  reducer_showSuggestionsContainer reducer_hideSuggestionsContainer
  reducer_setSearchOpen reducer_setSearchClosed reducer_setLc
  reducer_setCc : reducer.

(** Runs a list of commands symbolically, keeping the reducer folded. *)
Ltac run_cmds :=
  cbn [run exec app store locationHref heard];
  autorewrite with reducer;
  cbn [assign_val assign_suggestions assign_prevSuggestions
       assign_suggestionContainerVisible assign_isSearchOpen
       assign_lc assign_cc
       val suggestions prevSuggestions suggestionContainerVisible
       isSearchOpen lc cc store locationHref heard].

(** C10. The reducer is defined on every state and action; an action
    whose type is none of the ten named kinds gives the state back, and
    every field of the state is kept by all actions but the ones that are
    there to set it: [val] by all but setVal, [suggestions] by all but
    emptySuggestions and setSuggestionsToPrevious, [prevSuggestions] by all
    but setPrevSuggestions, the panel flag by all but show/hide, the open
    flag by all but setSearchOpen/setSearchClosed, [lc] by all but setLc and
    [cc] by all but setCc. *)
Theorem reducer_total_and_frame_preserving (st : state) (act : action) :
  (exists st', _reducer st act = st')
  /\ (~ In (type act) actionKinds -> _reducer st act = st)
  /\ (type act <> "setVal" -> val (_reducer st act) = val st)
  /\ (type act <> "emptySuggestions" ->
      type act <> "setSuggestionsToPrevious" ->
      suggestions (_reducer st act) = suggestions st)
  /\ (type act <> "setPrevSuggestions" ->
      prevSuggestions (_reducer st act) = prevSuggestions st)
  /\ (type act <> "showSuggestionsContainer" ->
      type act <> "hideSuggestionsContainer" ->
      suggestionContainerVisible (_reducer st act)
      = suggestionContainerVisible st)
  /\ (type act <> "setSearchOpen" ->
      type act <> "setSearchClosed" ->
      isSearchOpen (_reducer st act) = isSearchOpen st)
  /\ (type act <> "setLc" -> lc (_reducer st act) = lc st)
  /\ (type act <> "setCc" -> cc (_reducer st act) = cc st).
Proof.
  destruct act as [t p]; cbn [type].
  split; [eexists; reflexivity | ].
  pose proof (reducer_cases st t p) as H; cbv zeta in H.
  repeat match type of H with
         | _ \/ _ => destruct H as [[-> ->] | H]
         | _ /\ _ => destruct H as [Hn ->]
         end;
    repeat split; intros; try reflexivity; try congruence;
    try (exfalso; apply H; unfold actionKinds; cbn [In]; auto 20).
Qed.

(** What each named kind writes into its own field. *)
Lemma reducer_designated_fields (st : state) (p : payload) :
  val (_reducer st {| type := "setVal"; payload_of := p |}) = payload_val p
  /\ suggestions (_reducer st {| type := "emptySuggestions";
                                 payload_of := p |}) = []
  /\ prevSuggestions (_reducer st {| type := "setPrevSuggestions";
                                     payload_of := p |})
     = payload_prevSuggestions p
  /\ suggestions (_reducer st {| type := "setSuggestionsToPrevious";
                                 payload_of := p |}) = prevSuggestions st
  /\ suggestionContainerVisible
       (_reducer st {| type := "showSuggestionsContainer";
                       payload_of := p |}) = true
  /\ suggestionContainerVisible
       (_reducer st {| type := "hideSuggestionsContainer";
                       payload_of := p |}) = false
  /\ isSearchOpen (_reducer st {| type := "setSearchOpen";
                                  payload_of := p |}) = true
  /\ isSearchOpen (_reducer st {| type := "setSearchClosed";
                                  payload_of := p |}) = false
  /\ lc (_reducer st {| type := "setLc"; payload_of := p |}) = payload_lc p
  /\ cc (_reducer st {| type := "setCc"; payload_of := p |}) = payload_cc p.
Proof. repeat split. Qed.

Section FetchAndLocale.

Variable toLowerCase escapeRegExp : jsstring -> jsstring.
Variable p : props.
Variable getResults : jsstring -> reply (list suggestion).



(** C7, suggestion half and locale half. When the provider answers
    undefined, the fetch leaves the window, and with it the whole view
    state, as it was; it has asked the provider once and dispatched
    nothing. The same holds for the locale call, whatever the abort flag. *)
Theorem undefined_reply_leaves_state_unchanged
    (w : window) (r : request) (c : abortController) :
  (reason r = "input-changed" ->
   providerReply toLowerCase escapeRegExp p getResults r = Undefined ->
   let cmds := onSuggestionsFetchRequest toLowerCase escapeRegExp
                                         p getResults r in
   run w cmds = w
   /\ List.length (filter isRemoteCall cmds) = 1%nat
   /\ filter isDispatch cmds = [])
  /\ (let cmds := (snd localeEffect_mount
                   ++ localeEffect_resolved c Undefined)%list in
      run w cmds = w
      /\ List.length (filter isRemoteCall cmds) = 1%nat
      /\ filter isDispatch cmds = []).
Proof.
  split.
  - unfold providerReply, searchValueOf, onSuggestionsFetchRequest, callTypeahead.
    intros Hreason Hanswer. rewrite Hreason, String.eqb_refl.
    destruct (customTypeaheadApi p) as [api | ];
      cbn [snd] in Hanswer; rewrite Hanswer; cbn; auto.
  - cbn. auto.
Qed.

(** A rejected call ends the handler before any dispatch. *)
Lemma rejected_reply_leaves_state_unchanged
    (w : window) (r : request) (c : abortController) :
  (reason r = "input-changed" ->
   providerReply toLowerCase escapeRegExp p getResults r = Rejected ->
   store (run w (onSuggestionsFetchRequest toLowerCase escapeRegExp
                                           p getResults r)) = store w)
  /\ store (run w (localeEffect_resolved c Rejected)) = store w.
Proof.
  split; [ | reflexivity ].
  unfold providerReply, searchValueOf, onSuggestionsFetchRequest, callTypeahead.
  intros Hreason Hanswer. rewrite Hreason, String.eqb_refl.
  destruct (customTypeaheadApi p) as [api | ];
    cbn [snd] in Hanswer; rewrite Hanswer; reflexivity.
Qed.

End FetchAndLocale.

(** [s.length === 0] holds of the empty string only. *)
Lemma length_eqb_0 (s : jsstring) :
  (JS.length s =? 0)%Z = negb (truthy s).
Proof. destruct s; reflexivity. Qed.

Section Component.

Variable toLowerCase escapeRegExp : jsstring -> jsstring.
Variable SEARCH_REDIRECT_ENDPOINT : option jsstring.
Variable p : props.


(** C4, the code at the failing input. The mount effect aborts its
    controller before the locale call is made, so a defined locale reply
    that arrives while the component is still mounted is dropped: the
    instance is as it was, with the initial language and country. *)
Theorem locale_reply_dropped_while_mounted
    (q : queryLookup) (href : jsstring) (r : localeResponse) :
  let i := mount p q href in
  let i' := step toLowerCase escapeRegExp SEARCH_REDIRECT_ENDPOINT p i
                 (LocaleResolved (Value r)) in
  aborted (controller i) = true
  /\ i' = i
  /\ lc (store (page i')) = lit "en"
  /\ cc (store (page i')) = lit "us".
Proof. repeat split. Qed.

(** A controller that has not been aborted lets the reply through. *)
Lemma locale_reply_applied_when_not_aborted
    (w : window) (r : localeResponse) :
  let w' := run w (localeEffect_resolved newAbortController (Value r)) in
  lc (store w') = response_lc r /\ cc (store w') = response_cc r.
Proof. cbn [localeEffect_resolved aborted newAbortController negb]. run_cmds. auto. Qed.

(** C5. Escape closes the widget when the panel flag is off and changes
    nothing when it is on; so from an open widget with the panel showing,
    the first Escape leaves the widget open, the panel collapses, and the
    second Escape closes the widget. A click outside changes nothing when
    the stored text is not empty, so it closes the widget only when the text
    is empty; with empty text a click outside the masthead closes it. *)
Theorem dismissal_policy (w : window) (key : string) (k : click) :
  let st := store w in
  (key = "Escape" -> suggestionContainerVisible st = false ->
   store (run w (handleHideSearch st key)) = assign_isSearchOpen st false)
  /\ (suggestionContainerVisible st = true ->
      run w (handleHideSearch st key) = w)
  /\ (key <> "Escape" -> run w (handleHideSearch st key) = w)
  /\ (forall i : instance,
        suggestionContainerVisible (store (page i)) = true ->
        isSearchOpen (store (page i)) = true ->
        let i3 := steps toLowerCase escapeRegExp SEARCH_REDIRECT_ENDPOINT p
                        i [ DocumentKeyDown "Escape";
                            SuggestionsClearRequested;
                            DocumentKeyDown "Escape" ] in
        let i2 := steps toLowerCase escapeRegExp SEARCH_REDIRECT_ENDPOINT p
                        i [ DocumentKeyDown "Escape";
                            SuggestionsClearRequested ] in
        let i1 := steps toLowerCase escapeRegExp SEARCH_REDIRECT_ENDPOINT p
                        i [ DocumentKeyDown "Escape" ] in
        isSearchOpen (store (page i1)) = true
        /\ suggestionContainerVisible (store (page i2)) = false
        /\ isSearchOpen (store (page i2)) = true
        /\ isSearchOpen (store (page i3)) = false)
  /\ (val st <> [] -> run w (handleClickOutside st k) = w)
  /\ (isSearchOpen (store (run w (handleClickOutside st k)))
      <> isSearchOpen st -> val st = [])
  /\ (mastheadFound k = true -> mastheadContainsTarget k = false ->
      val st = [] ->
      store (run w (handleClickOutside st k)) = assign_isSearchOpen st false).
Proof.
  cbv zeta. repeat apply conj.
  - intros -> Hhidden. unfold handleHideSearch.
    rewrite String.eqb_refl, Hhidden. reflexivity.
  - intros Hvisible. unfold handleHideSearch. rewrite Hvisible.
    destruct (key =? "Escape"); reflexivity.
  - intros Hkey. unfold handleHideSearch.
    apply String.eqb_neq in Hkey. rewrite Hkey. reflexivity.
  - intros [[href evs [v sg pv vis op l c]] ctl] Hvisible Hopen.
    cbn [page store suggestionContainerVisible isSearchOpen] in *.
    subst vis op. repeat split.
  - intros Hval. unfold handleClickOutside. rewrite length_eqb_0.
    destruct (val (store w)) as [ | c r ]; [ congruence | ].
    destruct (mastheadFound k && negb (mastheadContainsTarget k));
      reflexivity.
  - unfold handleClickOutside. rewrite length_eqb_0.
    destruct (val (store w)) as [ | c r ]; [ reflexivity | ].
    destruct (mastheadFound k && negb (mastheadContainsTarget k));
      cbn [truthy negb run]; congruence.
  - intros Hfound Hout Hval. unfold handleClickOutside.
    rewrite Hfound, Hout, Hval. reflexivity.
Qed.

(** C6, as stated, fails for the panel flag of the component: a fetch for
    the two-letter text [ab], which the gate refuses, turns
    [suggestionContainerVisible] on. *)
Lemma short_text_fetch_sets_panel_flag :
  ~ (forall (q : props) (getResults : jsstring -> reply (list suggestion))
            (w : window) (r : request),
        (JS.length (trim (value r)) < renderValue q)%Z ->
        shouldRenderSuggestions q (value r) = false
        /\ (suggestionContainerVisible (store w) = false ->
            suggestionContainerVisible
              (store (run w (onSuggestionsFetchRequest
                               asciiToLowerCase (fun s => s) q getResults r)))
            = false)).
Proof.
  intros H.
  specialize (H defaultProps (fun _ => Value cloudComputing)
                (emptyWindow (openWith (lit "ab") false))
                {| value := lit "ab"; reason := "input-changed" |}
                eq_refl).
  destruct H as [_ H]. specialize (H eq_refl).
  vm_compute in H. discriminate H.
Qed.

(** C6, amended. When the trimmed text is shorter than [renderValue] the
    gate answers false, and it answers true once the trimmed text has
    [renderValue] characters; [renderValue] defaults to 3. The panel flag of
    the component is not gated: every fetch request that is not
    [escape-pressed] and, when the input changed, is answered with a value,
    turns the flag on whatever the length of its text. *)
Theorem short_input_fails_gate_flag_is_not_gated
    (getResults : jsstring -> reply (list suggestion))
    (w : window) (r : request) (v : jsstring) :
  ((JS.length (trim v) < renderValue p)%Z ->
   shouldRenderSuggestions p v = false)
  /\ ((renderValue p <= JS.length (trim v))%Z ->
      shouldRenderSuggestions p v = true)
  /\ renderValue defaultProps = 3%Z
  /\ (reason r <> "escape-pressed" ->
      (reason r = "input-changed" ->
       exists l, providerReply toLowerCase escapeRegExp p getResults r
                 = Value l) ->
      suggestionContainerVisible
        (store (run w (onSuggestionsFetchRequest toLowerCase escapeRegExp p
                                                 getResults r)))
      = true).
Proof.
  split; [ | split; [ | split ] ].
  - intros Hshort. apply Z.leb_gt. exact Hshort.
  - intros Hlong. apply Z.leb_le. exact Hlong.
  - reflexivity.
  - intros Hescape Hreply.
    unfold providerReply, searchValueOf, onSuggestionsFetchRequest,
      callTypeahead, onSuggestionsClearedRequested in *.
    apply String.eqb_neq in Hescape. rewrite Hescape.
    destruct (String.eqb_spec (reason r) "input-changed") as [Hinput | _].
    + destruct (Hreply Hinput) as [l Hl].
      destruct (customTypeaheadApi p) as [api | ];
        cbn [snd] in Hl; rewrite Hl; run_cmds; reflexivity.
    + run_cmds. reflexivity.
Qed.

End Component.

(** *** Strings on examples *)

Example trim_cloud :
  JS.trim (JS.lit "  cloud ") = JS.lit "cloud".
Proof. reflexivity. Qed.

Example encode_query :
  JS.encodeURIComponent (JS.lit "a b&c") = Some (JS.lit "a%20b%26c").
Proof. reflexivity. Qed.

Example encode_e_acute :
  JS.encodeURIComponent [233%Z] = Some (JS.lit "%C3%A9").
Proof. reflexivity. Qed.

Example encode_emoji :
  JS.encodeURIComponent [55357%Z; 56832%Z] = Some (JS.lit "%F0%9F%98%80").
Proof. reflexivity. Qed.

Example encode_lone_surrogate :
  JS.encodeURIComponent [55296%Z] = None.
Proof. reflexivity. Qed.

(** *** Percent-encoding is defined on well-formed strings *)

Lemma unreserved_not_surrogate (c : Z) :
  uriUnreserved c = true ->
  isLeadSurrogate c = false /\ isTrailSurrogate c = false.
Proof.
  unfold uriUnreserved, isLeadSurrogate, isTrailSurrogate, inRange.
  cbn [existsb]. intros H.
  assert (c <= 126)%Z as Hle.
  { repeat match type of H with
           | (_ || _) = true => apply orb_true_iff in H; destruct H as [H | H]
           | (_ && _) = true => apply andb_true_iff in H; destruct H as [_ H]
           end;
      try (apply Z.leb_le in H; lia);
      try (apply Z.eqb_eq in H; lia);
      discriminate. }
  split; apply andb_false_iff; left; apply Z.leb_gt; lia.
Qed.

Lemma encodeURIComponent_defined (s : jsstring) :
  wellFormed s = true -> encodeURIComponent s <> None.
Proof.
  enough (H : (wellFormed s = true -> encodeURIComponent s <> None)
              /\ forall c, wellFormed (c :: s) = true ->
                           encodeURIComponent (c :: s) <> None)
    by apply H.
  induction s as [ | a s [IHs IHas] ].
  - split; [ discriminate | ].
    intros c. cbn [wellFormed encodeURIComponent].
    destruct (uriUnreserved c) eqn:Hu.
    + discriminate.
    + destruct (isLeadSurrogate c); [ discriminate | ].
      destruct (isTrailSurrogate c); discriminate.
  - split; [ apply IHas | ].
    intros c Hwf.
    change (encodeURIComponent (c :: a :: s)) with
      (if uriUnreserved c
       then option_map (cons c) (encodeURIComponent (a :: s))
       else if isLeadSurrogate c then
              if isTrailSurrogate a
              then option_map (app (percentAll (utf8 (codePoint c a))))
                              (encodeURIComponent s)
              else None
            else if isTrailSurrogate c then None
                 else option_map (app (percentAll (utf8 c)))
                                 (encodeURIComponent (a :: s))).
    change (wellFormed (c :: a :: s)) with
      (if isLeadSurrogate c
       then isTrailSurrogate a && wellFormed s
       else negb (isTrailSurrogate c) && wellFormed (a :: s)) in Hwf.
    destruct (uriUnreserved c) eqn:Hu.
    + destruct (unreserved_not_surrogate c Hu) as [Hl Ht].
      rewrite Hl, Ht in Hwf. cbn [negb andb] in Hwf.
      specialize (IHas a Hwf).
      destruct (encodeURIComponent (a :: s)); [ discriminate | congruence ].
    + destruct (isLeadSurrogate c).
      * apply andb_true_iff in Hwf. destruct Hwf as [Ha Hs].
        rewrite Ha. specialize (IHs Hs).
        destruct (encodeURIComponent s); [ discriminate | congruence ].
      * apply andb_true_iff in Hwf. destruct Hwf as [Hc Hs].
        apply negb_true_iff in Hc. rewrite Hc.
        specialize (IHas a Hs).
        destruct (encodeURIComponent (a :: s)); [ discriminate | congruence ].
Qed.

(** *** Percent-encoding writes unreserved characters and [%XY] only *)

Lemma lit_code_units (s : string) : Forall isCodeUnit (lit s).
Proof.
  unfold lit. apply Forall_forall. intros c Hc.
  apply in_map_iff in Hc. destruct Hc as [a [<- _]].
  pose proof (N_ascii_bounded a). unfold isCodeUnit. lia.
Qed.

Lemma encodeURIComponent_cons (c : Z) (r : jsstring) :
  encodeURIComponent (c :: r)
  = if uriUnreserved c then option_map (cons c) (encodeURIComponent r)
    else if isLeadSurrogate c then
           match r with
           | d :: r' =>
               if isTrailSurrogate d
               then option_map (app (percentAll (utf8 (codePoint c d))))
                               (encodeURIComponent r')
               else None
           | [] => None
           end
         else if isTrailSurrogate c then None
              else option_map (app (percentAll (utf8 c)))
                              (encodeURIComponent r).
Proof. reflexivity. Qed.

Lemma hexDigit_unreserved (d : Z) :
  (0 <= d < 16)%Z -> uriUnreserved (hexDigit d) = true.
Proof.
  intros Hd.
  assert (d = 0 \/ d = 1 \/ d = 2 \/ d = 3 \/ d = 4 \/ d = 5 \/ d = 6
          \/ d = 7 \/ d = 8 \/ d = 9 \/ d = 10 \/ d = 11 \/ d = 12
          \/ d = 13 \/ d = 14 \/ d = 15)%Z as H by lia.
  repeat (destruct H as [-> | H]; [ reflexivity | ]). subst d. reflexivity.
Qed.

Lemma percent_alphabet (octet : Z) :
  (0 <= octet < 256)%Z -> Forall inUriAlphabet (percent octet).
Proof.
  intros Ho. unfold percent.
  apply Forall_cons; [ | apply Forall_cons; [ | apply Forall_cons;
                                                 [ | apply Forall_nil ] ] ].
  - right. reflexivity.
  - left. apply hexDigit_unreserved.
    split; [ apply Z.div_pos; lia | apply Z.div_lt_upper_bound; lia ].
  - left. apply hexDigit_unreserved. apply Z.mod_pos_bound. lia.
Qed.

Lemma percentAll_alphabet (octets : list Z) :
  Forall (fun o => 0 <= o < 256)%Z octets ->
  Forall inUriAlphabet (percentAll octets).
Proof.
  unfold percentAll. induction 1 as [ | o os Ho _ IH ]; cbn [flat_map].
  - constructor.
  - apply Forall_app. split; [ apply percent_alphabet; exact Ho | exact IH ].
Qed.

Lemma utf8_octets (cp : Z) :
  (0 <= cp < 1114112)%Z -> Forall (fun o => 0 <= o < 256)%Z (utf8 cp).
Proof.
  intros Hcp. unfold utf8.
  destruct (Z.ltb_spec cp 128); [ repeat constructor; lia | ].
  destruct (Z.ltb_spec cp 2048);
    [ repeat constructor; Z.to_euclidean_division_equations; lia | ].
  destruct (Z.ltb_spec cp 65536);
    repeat constructor; Z.to_euclidean_division_equations; lia.
Qed.

Lemma codePoint_range (lead trail : Z) :
  isLeadSurrogate lead = true -> isTrailSurrogate trail = true ->
  (0 <= codePoint lead trail < 1114112)%Z.
Proof.
  unfold isLeadSurrogate, isTrailSurrogate, inRange, codePoint.
  intros Hl Ht.
  apply andb_true_iff in Hl. apply andb_true_iff in Ht.
  destruct Hl as [Hl1 Hl2]. destruct Ht as [Ht1 Ht2].
  apply Z.leb_le in Hl1, Hl2, Ht1, Ht2. lia.
Qed.

Lemma option_map_app_alphabet (pre : jsstring) (o : option jsstring) q :
  Forall inUriAlphabet pre ->
  (forall q', o = Some q' -> Forall inUriAlphabet q') ->
  option_map (app pre) o = Some q -> Forall inUriAlphabet q.
Proof.
  intros Hpre Ho. destruct o as [q' | ]; [ | discriminate ].
  intros [= <-]. apply Forall_app. auto.
Qed.

Lemma encodeURIComponent_alphabet (s q : jsstring) :
  Forall isCodeUnit s ->
  encodeURIComponent s = Some q ->
  Forall inUriAlphabet q.
Proof.
  revert q.
  enough (H : (Forall isCodeUnit s ->
               forall q, encodeURIComponent s = Some q ->
                         Forall inUriAlphabet q)
              /\ forall c, Forall isCodeUnit (c :: s) ->
                           forall q, encodeURIComponent (c :: s) = Some q ->
                                     Forall inUriAlphabet q)
    by (intros q Hs; apply H; exact Hs).
  assert (Hstep : forall c r,
             Forall isCodeUnit (c :: r) ->
             (forall q, encodeURIComponent r = Some q ->
                        Forall inUriAlphabet q) ->
             (forall d r', r = d :: r' ->
                           forall q, encodeURIComponent r' = Some q ->
                                     Forall inUriAlphabet q) ->
             forall q, encodeURIComponent (c :: r) = Some q ->
                       Forall inUriAlphabet q).
  { intros c r Hunits IHr IHr' q. rewrite encodeURIComponent_cons.
    inversion Hunits as [ | c' r0 Hc Hr ]; subst.
    destruct (uriUnreserved c) eqn:Hu.
    - change (cons c) with (app [c]).
      apply option_map_app_alphabet; [ | exact IHr ].
      apply Forall_cons; [ left; exact Hu | apply Forall_nil ].
    - destruct (isLeadSurrogate c) eqn:Hl.
      + destruct r as [ | d r' ]; [ discriminate | ].
        destruct (isTrailSurrogate d) eqn:Ht; [ | discriminate ].
        apply option_map_app_alphabet; [ | exact (IHr' d r' eq_refl) ].
        apply percentAll_alphabet, utf8_octets, codePoint_range; assumption.
      + destruct (isTrailSurrogate c); [ discriminate | ].
        apply option_map_app_alphabet; [ | exact IHr ].
        apply percentAll_alphabet, utf8_octets.
        unfold isCodeUnit in Hc. lia. }
  induction s as [ | a s [IHs IHas] ].
  - split.
    + intros _ q [= <-]. constructor.
    + intros c Hunits. apply Hstep; [ exact Hunits | | ].
      * intros q [= <-]. constructor.
      * intros d r' Hnil. discriminate Hnil.
  - split.
    + apply IHas.
    + intros c Hunits. inversion Hunits as [ | c' r0 Hc Hr ]; subst.
      apply Hstep; [ exact Hunits | apply IHas; exact Hr | ].
      intros d r' [= <- <-]. apply IHs.
      inversion Hr; assumption.
Qed.

Lemma encodeURIComponent_undefined (s : jsstring) :
  wellFormed s = false -> encodeURIComponent s = None.
Proof.
  enough (H : (wellFormed s = false -> encodeURIComponent s = None)
              /\ forall c, wellFormed (c :: s) = false ->
                           encodeURIComponent (c :: s) = None)
    by apply H.
  assert (Hstep : forall c r,
             (wellFormed r = false -> encodeURIComponent r = None) ->
             (forall x r', r = x :: r' ->
                           wellFormed r' = false ->
                           encodeURIComponent r' = None) ->
             wellFormed (c :: r) = false ->
             encodeURIComponent (c :: r) = None).
  { intros c r IHr IHr'. rewrite encodeURIComponent_cons.
    cbn [wellFormed].
    destruct (uriUnreserved c) eqn:Hu.
    - destruct (unreserved_not_surrogate c Hu) as [-> ->].
      cbn [negb andb]. intros Hr. rewrite (IHr Hr). reflexivity.
    - destruct (isLeadSurrogate c).
      + destruct r as [ | x r' ]; [ reflexivity | ].
        destruct (isTrailSurrogate x); [ | reflexivity ].
        cbn [andb]. intros Hr. rewrite (IHr' x r' eq_refl Hr). reflexivity.
      + destruct (isTrailSurrogate c); [ reflexivity | ].
        cbn [negb andb]. intros Hr. rewrite (IHr Hr). reflexivity. }
  induction s as [ | a s [IHs IHas] ].
  - split; [ discriminate | ].
    intros c. apply Hstep; [ discriminate | ].
    intros x r' Hnil. discriminate Hnil.
  - split; [ apply IHas | ].
    intros c. apply Hstep; [ apply IHas | ].
    intros x r' [= <- <-]. exact IHs.
Qed.

Section Selection.

Variable SEARCH_REDIRECT_ENDPOINT : option jsstring.
Variable p : props.

(** C3, amended. With redirect suppression on, selecting a suggestion
    sends exactly one event, [onSearchNoRedirect], whose detail is the
    selected value, prevents the default action and leaves the location
    alone. With it off and a well-formed value, the location becomes the
    configured endpoint (the default search URL when none is configured)
    followed by [&q=], the percent-encoded value, [&lang=], the language,
    [&cc=] and the country of the current state, and no event is sent; the
    encoding consists of unreserved characters and [%XY] escapes. With it
    off and a value that holds a lone surrogate, the handler ends in a
    URIError and changes nothing. *)
Theorem suggestion_selected_notifies_redirects_or_throws
    (w : window) (suggestionValue : jsstring) :
  let st := store w in
  let cmds := onSuggestionSelected SEARCH_REDIRECT_ENDPOINT p st
                                   suggestionValue in
  let notification := {| eventName := "onSearchNoRedirect"; bubbles := true;
                         detail := Some suggestionValue |} in
  let endpoint := match SEARCH_REDIRECT_ENDPOINT with
                  | Some (c :: e) => c :: e
                  | Some [] | None =>
                      lit "https://www.ibm.com/search?lnk=mhsrch"
                  end in
  (searchNoRedirect p = true ->
   cmds = [DispatchEvent notification; PreventDefault]
   /\ locationHref (run w cmds) = locationHref w
   /\ heard (run w cmds) = (heard w ++ [notification])%list)
  /\ (searchNoRedirect p = false ->
      wellFormed suggestionValue = true ->
      exists q,
        encodeURIComponent suggestionValue = Some q
        /\ cmds = [ SetLocationHref
                      (endpoint ++ lit "&q=" ++ q
                       ++ lit "&lang=" ++ lc st ++ lit "&cc=" ++ cc st)%list ]
        /\ locationHref (run w cmds)
           = (endpoint ++ lit "&q=" ++ q
              ++ lit "&lang=" ++ lc st ++ lit "&cc=" ++ cc st)%list
        /\ heard (run w cmds) = heard w
        /\ (Forall isCodeUnit suggestionValue -> Forall inUriAlphabet q))
  /\ (searchNoRedirect p = false ->
      wellFormed suggestionValue = false ->
      cmds = [Throw URIError] /\ run w cmds = w).
Proof.
  cbv zeta.
  assert (Hendpoint : _redirectUrl SEARCH_REDIRECT_ENDPOINT
                      = match SEARCH_REDIRECT_ENDPOINT with
                        | Some (c :: e) => c :: e
                        | Some [] | None =>
                            lit "https://www.ibm.com/search?lnk=mhsrch"
                        end).
  { unfold _redirectUrl, or_else.
    destruct SEARCH_REDIRECT_ENDPOINT as [ [ | c e ] | ]; reflexivity. }
  rewrite <- Hendpoint.
  unfold onSuggestionSelected, redirectTo, getRedirect.
  split; [ | split ].
  - intros ->. repeat split.
  - intros -> Hwf.
    pose proof (encodeURIComponent_defined suggestionValue Hwf) as Hdef.
    destruct (encodeURIComponent suggestionValue) as [q | ] eqn:Hq;
      [ | congruence ].
    exists q. cbn [option_map]. repeat split.
    intros Hunits. exact (encodeURIComponent_alphabet Hunits Hq).
  - intros -> Hwf.
    rewrite (encodeURIComponent_undefined suggestionValue Hwf).
    split; reflexivity.
Qed.

End Selection.

(** C3, as stated, fails: a selected value that ends in a lone surrogate
    is not navigated to. *)
Lemma lone_surrogate_selection_does_not_navigate :
  ~ (forall (q : props) (w : window) (v : jsstring),
        searchNoRedirect q = false ->
        exists encoded,
          navigationsOf (onSuggestionSelected None q
                                              (store w) v)
          = [ (_redirectUrl None ++ lit "&q=" ++ encoded
               ++ lit "&lang=" ++ lc (store w)
               ++ lit "&cc=" ++ cc (store w))%list ]).
Proof.
  intros H.
  destruct (H defaultProps (emptyWindow (openWith (lit "caf") true))
              (lit "caf" ++ [55357%Z])%list eq_refl) as [encoded Hnav].
  unfold onSuggestionSelected, redirectTo, getRedirect in Hnav.
  cbn [searchNoRedirect defaultProps] in Hnav.
  change (encodeURIComponent (lit "caf" ++ [55357%Z])%list)
    with (@None jsstring) in Hnav.
  discriminate Hnav.
Qed.

(** *** The active list and the cache *)

Lemma handle_keeps_list_empty_or_cache
    toLowerCase escapeRegExp env p (c : abortController) (e : event)
    (w : window) :
  listIsEmptyOrCache (store w) ->
  listIsEmptyOrCache
    (store (run w (handle toLowerCase escapeRegExp env p c (store w) e))).
Proof.
  unfold listIsEmptyOrCache. intros Hinv.
  destruct e; cbn [handle].
  - unfold onChange. run_cmds. exact Hinv.
  - unfold onKeyDown, onSearchNoRedirect.
    destruct (key =? "Enter"), (searchNoRedirect p); run_cmds; exact Hinv.
  - unfold searchIconClick, onSearchNoRedirect, redirectTo.
    destruct (isSearchOpen (store w)), (negb (JS.length (val (store w)) =? 0)%Z),
      (searchNoRedirect p), (getRedirect env (store w) (val (store w)));
      run_cmds; exact Hinv.
  - unfold closeBtnAction, resetSearch. destruct iconFound; run_cmds; exact Hinv.
  - unfold onSuggestionsFetchRequest, callTypeahead,
      onSuggestionsClearedRequested.
    destruct (reason r =? "input-changed").
    + destruct (customTypeaheadApi p) as [api | ].
      * destruct (api _); run_cmds; auto.
      * destruct (getResults _); run_cmds; auto.
    + destruct (reason r =? "escape-pressed"); run_cmds; auto.
  - unfold onSuggestionsClearedRequested. run_cmds. auto.
  - unfold onSuggestionSelected, onSearchNoRedirect, redirectTo.
    destruct (searchNoRedirect p), (getRedirect env (store w) suggestionValue);
      run_cmds; exact Hinv.
  - unfold handleHideSearch.
    destruct (key =? "Escape"), (negb (suggestionContainerVisible (store w)));
      run_cmds; exact Hinv.
  - unfold handleClickOutside.
    destruct (mastheadFound c0 && negb (mastheadContainsTarget c0)),
      (JS.length (val (store w)) =? 0)%Z; run_cmds; exact Hinv.
  - unfold localeEffect_resolved.
    destruct response; [ destruct (negb (aborted c)) | | ];
      run_cmds; exact Hinv.
Qed.

Lemma steps_keep_list_empty_or_cache
    toLowerCase escapeRegExp env p (es : list event) (i : instance) :
  listIsEmptyOrCache (store (page i)) ->
  listIsEmptyOrCache
    (store (page (steps toLowerCase escapeRegExp env p i es))).
Proof.
  revert i. induction es as [ | e es IH ]; intros i Hinv.
  - exact Hinv.
  - cbn [steps fold_left]. apply IH. unfold step. cbn [page].
    apply handle_keeps_list_empty_or_cache. exact Hinv.
Qed.

(** Under single reducer actions the list is empty or is what the cache held
    after some prefix of the actions. *)
Lemma reducer_list_from_cache_history (init : state) (acts : list action) :
  suggestions init = [] ->
  let st := fold_left _reducer acts init in
  suggestions st = []
  \/ exists k, (k <= List.length acts)%nat
               /\ suggestions st
                  = prevSuggestions (fold_left _reducer (firstn k acts) init).
Proof.
  intros Hinit. cbv zeta.
  induction acts as [ | a acts IH ] using rev_ind.
  - left. exact Hinit.
  - rewrite fold_left_app. cbn [fold_left].
    set (st := fold_left _reducer acts init) in *.
    assert (Hkeep : suggestions (_reducer st a) = suggestions st ->
                    suggestions (_reducer st a) = []
                    \/ exists k, (k <= List.length (acts ++ [a]))%nat
                         /\ suggestions (_reducer st a)
                            = prevSuggestions
                                (fold_left _reducer
                                           (firstn k (acts ++ [a])) init)).
    { intros ->. destruct IH as [IH | [k [Hk IH]]]; [ left; exact IH | ].
      right. exists k. rewrite length_app. cbn [List.length].
      split; [ lia | ].
      rewrite firstn_app.
      replace (k - List.length acts)%nat with 0%nat by lia.
      cbn [firstn]. rewrite app_nil_r. exact IH. }
    destruct a as [t pl].
    pose proof (reducer_cases st t pl) as H; cbv zeta in H.
    repeat match type of H with
           | _ \/ _ => destruct H as [[-> H] | H]
           | _ /\ _ => destruct H as [_ H]
           end;
      try (apply Hkeep; rewrite H; reflexivity).
    + left. rewrite H. reflexivity.
    + right. exists (List.length acts). rewrite length_app.
      split; [ lia | ].
      rewrite firstn_app, firstn_all, Nat.sub_diag. cbn [firstn].
      rewrite app_nil_r, H. reflexivity.
Qed.

(** C2, as stated, fails: setting the cache alone after the list was
    filled leaves a list that is neither empty nor the cache. *)
Lemma reducer_actions_break_list_is_cache :
  ~ (forall (p : props) (q : queryLookup) (acts : list action),
        let st := fold_left _reducer acts (_initialState p q) in
        suggestions st = [] \/ suggestions st = prevSuggestions st).
Proof.
  intros H.
  specialize (H defaultProps QueryMissing
                [ setPrevSuggestions [ {| name := lit "Cloud Computing" |} ];
                  setSuggestionsToPrevious;
                  setPrevSuggestions [ {| name := lit "Watson" |} ] ]).
  cbv zeta in H. destruct H as [H | H]; vm_compute in H; discriminate H.
Qed.

(** C2, amended. After any sequence of the component's events, each
    handler's dispatches applied together, the active list is empty or equal
    to the cache. After any sequence of single reducer actions the active
    list is empty or equal to what the cache held after some prefix of the
    sequence: it is never a mixture of two results. *)
Theorem suggestions_empty_or_cache
    (p : props) (q : queryLookup) :
  (forall toLowerCase escapeRegExp env href (es : list event),
      let st := store (page (steps toLowerCase escapeRegExp env p
                                   (mount p q href) es)) in
      suggestions st = [] \/ suggestions st = prevSuggestions st)
  /\ (forall acts : list action,
        let st := fold_left _reducer acts (_initialState p q) in
        suggestions st = []
        \/ exists k, (k <= List.length acts)%nat
                     /\ suggestions st
                        = prevSuggestions
                            (fold_left _reducer (firstn k acts)
                                       (_initialState p q))).
Proof.
  split.
  - intros. apply steps_keep_list_empty_or_cache. left. reflexivity.
  - intros. apply reducer_list_from_cache_history. reflexivity.
Qed.

(** *** The locale pair over the life of a component *)

Lemma handle_keeps_locale_when_aborted
    toLowerCase escapeRegExp env p (c : abortController) (e : event)
    (w : window) :
  aborted c = true ->
  let w' := run w (handle toLowerCase escapeRegExp env p c (store w) e) in
  lc (store w') = lc (store w) /\ cc (store w') = cc (store w).
Proof.
  intros Haborted. cbv zeta.
  destruct e; cbn [handle].
  - unfold onChange. run_cmds. auto.
  - unfold onKeyDown, onSearchNoRedirect.
    destruct (key =? "Enter"), (searchNoRedirect p); run_cmds; auto.
  - unfold searchIconClick, onSearchNoRedirect, redirectTo.
    destruct (isSearchOpen (store w)), (negb (JS.length (val (store w)) =? 0)%Z),
      (searchNoRedirect p), (getRedirect env (store w) (val (store w)));
      run_cmds; auto.
  - unfold closeBtnAction, resetSearch. destruct iconFound; run_cmds; auto.
  - unfold onSuggestionsFetchRequest, callTypeahead,
      onSuggestionsClearedRequested.
    destruct (reason r =? "input-changed").
    + destruct (customTypeaheadApi p) as [api | ].
      * destruct (api _); run_cmds; auto.
      * destruct (getResults _); run_cmds; auto.
    + destruct (reason r =? "escape-pressed"); run_cmds; auto.
  - unfold onSuggestionsClearedRequested. run_cmds. auto.
  - unfold onSuggestionSelected, onSearchNoRedirect, redirectTo.
    destruct (searchNoRedirect p), (getRedirect env (store w) suggestionValue);
      run_cmds; auto.
  - unfold handleHideSearch.
    destruct (key =? "Escape"), (negb (suggestionContainerVisible (store w)));
      run_cmds; auto.
  - unfold handleClickOutside.
    destruct (mastheadFound c0 && negb (mastheadContainsTarget c0)),
      (JS.length (val (store w)) =? 0)%Z; run_cmds; auto.
  - unfold localeEffect_resolved. rewrite Haborted.
    destruct response; run_cmds; auto.
Qed.

(** As the mount effect aborts its controller at once, no run of a mounted
    component ever leaves the initial locale pair. *)
Lemma locale_pair_never_leaves_default
    toLowerCase escapeRegExp env p (q : queryLookup) (href : jsstring)
    (es : list event) :
  let i := steps toLowerCase escapeRegExp env p (mount p q href) es in
  lc (store (page i)) = lit "en" /\ cc (store (page i)) = lit "us".
Proof.
  cbv zeta.
  enough (H : forall i,
             aborted (controller i) = true ->
             lc (store (page i)) = lit "en" ->
             cc (store (page i)) = lit "us" ->
             lc (store (page (steps toLowerCase escapeRegExp env p i es)))
             = lit "en"
             /\ cc (store (page (steps toLowerCase escapeRegExp env p i es)))
                = lit "us")
    by (apply H; reflexivity).
  induction es as [ | e es IH ]; intros i Haborted Hlc Hcc.
  - auto.
  - cbn [steps fold_left]. apply IH; unfold step; cbn [page controller].
    + exact Haborted.
    + rewrite <- Hlc.
      apply (handle_keeps_locale_when_aborted toLowerCase escapeRegExp env p
               (controller i) e (page i) Haborted).
    + rewrite <- Hcc.
      apply (handle_keeps_locale_when_aborted toLowerCase escapeRegExp env p
               (controller i) e (page i) Haborted).
Qed.

(** The clean-up of the effect is what is meant to drop a late reply. *)
Lemma locale_reply_dropped_after_unmount
    (c : abortController) (w : window) (r : localeResponse) :
  run w (localeEffect_resolved (localeEffect_cleanup c) (Value r)) = w.
Proof. reflexivity. Qed.

(** *** The theorems at concrete inputs *)


Lemma undefined_reply_witness :
  let getResults := fun _ : jsstring => @Undefined (list suggestion) in
  let r := {| value := lit "cloud"; reason := "input-changed" |} in
  let w := emptyWindow (openWith (lit "cloud") true) in
  let cmds := onSuggestionsFetchRequest asciiToLowerCase (fun s => s)
                                        defaultProps getResults r in
  run w cmds = w
  /\ List.length (filter isRemoteCall cmds) = 1%nat
  /\ filter isDispatch cmds = [].
Proof.
  exact (proj1 (undefined_reply_leaves_state_unchanged
                  asciiToLowerCase (fun s => s) defaultProps
                  (fun _ => Undefined)
                  (emptyWindow (openWith (lit "cloud") true))
                  {| value := lit "cloud"; reason := "input-changed" |}
                  newAbortController)
               eq_refl eq_refl).
Defined.

Lemma dismissal_policy_witness :
  let typing := emptyWindow (openWith (lit "cloud") false) in
  let showing := emptyWindow (openWith [] true) in
  let outside := {| mastheadFound := true; mastheadContainsTarget := false |} in
  isSearchOpen (store (run typing (handleHideSearch (store typing) "Escape")))
  = false
  /\ run typing (handleClickOutside (store typing) outside) = typing
  /\ run showing (handleHideSearch (store showing) "Escape") = showing
  /\ run showing (handleHideSearch (store showing) "Enter") = showing
  /\ isSearchOpen
       (store (run showing (handleClickOutside (store showing) outside)))
     = false
  /\ val (store showing) = []
  /\ (let i := {| page := emptyWindow (openWith (lit "cloud") true);
                  controller := newAbortController |} in
      let after := steps asciiToLowerCase (fun s => s) None defaultProps i in
      isSearchOpen (store (page (after [DocumentKeyDown "Escape"]))) = true
      /\ suggestionContainerVisible
           (store (page (after [DocumentKeyDown "Escape";
                                SuggestionsClearRequested]))) = false
      /\ isSearchOpen
           (store (page (after [DocumentKeyDown "Escape";
                                SuggestionsClearRequested]))) = true
      /\ isSearchOpen
           (store (page (after [DocumentKeyDown "Escape";
                                SuggestionsClearRequested;
                                DocumentKeyDown "Escape"]))) = false).
Proof.
  pose proof (dismissal_policy asciiToLowerCase (fun s => s) None defaultProps
                (emptyWindow (openWith (lit "cloud") false)) "Escape"
                {| mastheadFound := true; mastheadContainsTarget := false |})
    as Htyping.
  pose proof (dismissal_policy asciiToLowerCase (fun s => s) None defaultProps
                (emptyWindow (openWith [] true)) "Escape"
                {| mastheadFound := true; mastheadContainsTarget := false |})
    as Hshowing.
  pose proof (dismissal_policy asciiToLowerCase (fun s => s) None defaultProps
                (emptyWindow (openWith [] true)) "Enter"
                {| mastheadFound := true; mastheadContainsTarget := false |})
    as Henter.
  cbv zeta in *.
  destruct Htyping as (Hclose & _ & _ & _ & Hkeep & _ & _).
  destruct Hshowing as (_ & Hpanel & _ & Htwice & _ & Honly & Hout).
  destruct Henter as (_ & _ & Hother & _).
  destruct (Htwice {| page := emptyWindow (openWith (lit "cloud") true);
                      controller := newAbortController |} eq_refl eq_refl)
    as (Hfirst & Hcollapsed & Hstill & Hsecond).
  repeat apply conj.
  - rewrite (Hclose eq_refl eq_refl). reflexivity.
  - apply Hkeep. discriminate.
  - apply Hpanel. reflexivity.
  - apply Hother. discriminate.
  - rewrite (Hout eq_refl eq_refl eq_refl). reflexivity.
  - apply Honly. discriminate.
  - exact Hfirst.
  - exact Hcollapsed.
  - exact Hstill.
  - exact Hsecond.
Defined.

Lemma short_input_witness :
  let w := emptyWindow (openWith (lit "ab") false) in
  let r := {| value := lit "ab"; reason := "input-changed" |} in
  shouldRenderSuggestions defaultProps (lit " ab ") = false
  /\ shouldRenderSuggestions defaultProps (lit "cloud") = true
  /\ suggestionContainerVisible
       (store (run w (onSuggestionsFetchRequest
                        asciiToLowerCase (fun s => s) defaultProps
                        (fun _ => Value cloudComputing) r)))
     = true.
Proof.
  cbv zeta.
  destruct (short_input_fails_gate_flag_is_not_gated
              asciiToLowerCase (fun s => s) defaultProps
              (fun _ => Value cloudComputing)
              (emptyWindow (openWith (lit "ab") false))
              {| value := lit "ab"; reason := "input-changed" |}
              (lit " ab ")) as (Hshort & _ & _ & Hflag).
  destruct (short_input_fails_gate_flag_is_not_gated
              asciiToLowerCase (fun s => s) defaultProps
              (fun _ => Value cloudComputing)
              (emptyWindow (openWith (lit "ab") false))
              {| value := lit "ab"; reason := "input-changed" |}
              (lit "cloud")) as (_ & Hlong & _ & _).
  repeat apply conj.
  - apply Hshort. reflexivity.
  - apply Hlong. discriminate.
  - apply Hflag; [ discriminate | ].
    intros _. exists cloudComputing. reflexivity.
Defined.

Lemma suggestion_selected_witness :
  let w := emptyWindow (openWith (lit "cloud") true) in
  let v := lit "cloud computing" in
  onSuggestionSelected None noRedirectProps (store w) v
  = [ DispatchEvent {| eventName := "onSearchNoRedirect"; bubbles := true;
                       detail := Some v |};
      PreventDefault ]
  /\ (exists q,
        encodeURIComponent v = Some q
        /\ locationHref
             (run w (onSuggestionSelected None defaultProps (store w) v))
           = (lit "https://www.ibm.com/search?lnk=mhsrch" ++ lit "&q=" ++ q
              ++ lit "&lang=" ++ lit "en" ++ lit "&cc=" ++ lit "us")%list
        /\ Forall inUriAlphabet q)
  /\ run w (onSuggestionSelected None defaultProps (store w)
                                 (lit "caf" ++ [55357%Z])%list) = w.
Proof.
  cbv zeta.
  pose proof (suggestion_selected_notifies_redirects_or_throws None
                noRedirectProps (emptyWindow (openWith (lit "cloud") true))
                (lit "cloud computing")) as Hquiet.
  pose proof (suggestion_selected_notifies_redirects_or_throws None
                defaultProps (emptyWindow (openWith (lit "cloud") true))
                (lit "cloud computing")) as Hgo.
  pose proof (suggestion_selected_notifies_redirects_or_throws None
                defaultProps (emptyWindow (openWith (lit "cloud") true))
                (lit "caf" ++ [55357%Z])%list) as Hthrow.
  cbv zeta in *.
  destruct Hquiet as (Hquiet & _ & _).
  destruct Hgo as (_ & Hgo & _).
  destruct Hthrow as (_ & _ & Hthrow).
  destruct (Hquiet eq_refl) as (Hcmds & _ & _).
  destruct (Hgo eq_refl eq_refl) as (q & Hq & _ & Hurl & _ & Halphabet).
  destruct (Hthrow eq_refl eq_refl) as (_ & Hsame).
  repeat apply conj.
  - exact Hcmds.
  - exists q. repeat apply conj.
    + exact Hq.
    + exact Hurl.
    + apply Halphabet. apply lit_code_units.
  - exact Hsame.
Defined.

Lemma reducer_frame_witness :
  let st := openWith (lit "cloud") true in
  _reducer st {| type := "reset"; payload_of := emptyPayload |} = st
  /\ val (_reducer st (setLc (lit "fr"))) = val st
  /\ suggestions (_reducer st (setLc (lit "fr"))) = suggestions st
  /\ prevSuggestions (_reducer st (setLc (lit "fr"))) = prevSuggestions st
  /\ suggestionContainerVisible (_reducer st (setLc (lit "fr")))
     = suggestionContainerVisible st
  /\ isSearchOpen (_reducer st (setLc (lit "fr"))) = isSearchOpen st
  /\ lc (_reducer st (setCc (lit "ca"))) = lc st
  /\ cc (_reducer st (setLc (lit "fr"))) = cc st.
Proof.
  cbv zeta.
  pose proof (reducer_total_and_frame_preserving
                (openWith (lit "cloud") true)
                {| type := "reset"; payload_of := emptyPayload |}) as Hother.
  pose proof (reducer_total_and_frame_preserving
                (openWith (lit "cloud") true) (setLc (lit "fr"))) as Hlc.
  pose proof (reducer_total_and_frame_preserving
                (openWith (lit "cloud") true) (setCc (lit "ca"))) as Hcc.
  destruct Hother as (_ & Hother & _).
  destruct Hlc as (_ & _ & Hval & Hsugg & Hprev & Hpanel & Hopen & _ & Hcc').
  destruct Hcc as (_ & _ & _ & _ & _ & _ & _ & Hlc' & _).
  repeat apply conj.
  - apply Hother. cbn. intuition discriminate.
  - apply Hval. discriminate.
  - apply Hsugg; discriminate.
  - apply Hprev. discriminate.
  - apply Hpanel; discriminate.
  - apply Hopen; discriminate.
  - apply Hlc'. discriminate.
  - apply Hcc'. discriminate.
Defined.

End SearchFacts.

(* ------------------------------------------------------------------ *)
(** ** Properties of the video player *)

Module VideoPlayerFacts.

Import JS VideoPlayer.
Local Open Scope string_scope.

Section Facts.

Variable ddsPrefix : string.

Lemma updated_keeps_contentState (el : element) (changed : list string) :
  contentState (updated el changed) = contentState el.
Proof.
  unfold updated.
  destruct (has changed "duration" || has changed "formatCaption"
            || has changed "name"); [ | reflexivity ].
  destruct (truthy (caption el)); reflexivity.
Qed.

Lemma step_from_VIDEO (el el' : element) (o : op) (evs : list stateChange) :
  step ddsPrefix el o el' evs ->
  contentState el = VIDEO ->
  contentState el' = VIDEO /\ evs = [].
Proof.
  intros Hstep Hvideo. inversion Hstep; subst.
  - unfold _renderContent in H. rewrite Hvideo in H. discriminate H.
  - rewrite updated_keeps_contentState. auto.
Qed.

(** The element's own operations: it starts at THUMBNAIL, the overlay can be
    clicked exactly while the state is THUMBNAIL, the click moves the state
    to VIDEO and sends one event, a step that changes the state is such a
    click, and from VIDEO every run stays at VIDEO and sends nothing. *)
Lemma own_operations_move_forward_only :
  (forall formatVideoCaption formatVideoDuration,
      contentState (initial formatVideoCaption formatVideoDuration)
      = THUMBNAIL)
  /\ (forall el, contentState el = THUMBNAIL <->
                 exists el' evs, step ddsPrefix el ClickOverlay el' evs)
  /\ (forall el el' evs,
        step ddsPrefix el ClickOverlay el' evs ->
        contentState el = THUMBNAIL
        /\ el' = set_contentState el VIDEO
        /\ evs = [ {| eventName := eventContentStateChange ddsPrefix;
                      bubbles := true;
                      composed := true;
                      detail_videoId := videoId el;
                      detail_contentState := VIDEO |} ])
  /\ (forall el o el' evs,
        step ddsPrefix el o el' evs ->
        contentState el' <> contentState el ->
        o = ClickOverlay
        /\ contentState el = THUMBNAIL /\ contentState el' = VIDEO)
  /\ (forall el os el' evs,
        run ddsPrefix el os el' evs ->
        contentState el = VIDEO ->
        contentState el' = VIDEO /\ evs = [])
  /\ (forall el os el' evs,
        run ddsPrefix el os el' evs -> (List.length evs <= 1)%nat).
Proof.
  assert (Hclick : forall el el' evs,
             step ddsPrefix el ClickOverlay el' evs ->
             contentState el = THUMBNAIL
             /\ el' = set_contentState el VIDEO
             /\ evs = [ {| eventName := eventContentStateChange ddsPrefix;
                           bubbles := true;
                           composed := true;
                           detail_videoId := videoId el;
                           detail_contentState := VIDEO |} ]).
  { intros el el' evs Hstep. inversion Hstep; subst.
    unfold _renderContent in H.
    destruct (contentState el); [ | discriminate H ]. repeat split. }
  assert (Hstay : forall el os el' evs,
             run ddsPrefix el os el' evs ->
             contentState el = VIDEO ->
             contentState el' = VIDEO /\ evs = []).
  { intros el os el' evs Hrun. induction Hrun as [ | el o el1 evs1 os el2 evs2 Hstep Hrun IH ].
    - auto.
    - intros Hvideo.
      destruct (step_from_VIDEO Hstep Hvideo) as [Hvideo1 ->].
      destruct (IH Hvideo1) as [Hvideo2 ->]. auto. }
  repeat apply conj.
  - reflexivity.
  - intros el. split.
    + intros Hthumb. eexists. eexists.
      apply step_click with (defaultSrc := thumbnailUrl el) (alt := name el).
      unfold _renderContent. rewrite Hthumb. reflexivity.
    + intros [el' [evs Hstep]]. apply (Hclick _ _ _ Hstep).
  - exact Hclick.
  - intros el o el' evs Hstep Hchange. destruct o.
    + destruct (Hclick _ _ _ Hstep) as [Hthumb [-> _]]. auto.
    + inversion Hstep; subst.
      rewrite updated_keeps_contentState in Hchange. congruence.
  - exact Hstay.
  - intros el os el' evs Hrun.
    induction Hrun as [ | el o el1 evs1 os el2 evs2 Hstep Hrun IH ].
    + cbn. lia.
    + destruct o.
      * destruct (Hclick _ _ _ Hstep) as [_ [-> ->]].
        destruct (Hstay _ _ _ _ Hrun eq_refl) as [_ ->]. cbn. lia.
      * inversion Hstep; subst. cbn [app]. exact IH.
Qed.

Lemma assignment_sets_contentState
    (el : element) (c : VIDEO_PLAYER_CONTENT_STATE) :
  updated (set_contentState el c) ["contentState"] = set_contentState el c.
Proof. reflexivity. Qed.

(** C8, amended. The element starts at THUMBNAIL. Of its own operations
    only a click on the thumbnail overlay, which exists exactly while the
    state is THUMBNAIL, changes the state: it moves it to VIDEO and sends
    one event that carries the video id and VIDEO; from VIDEO the element's
    own operations keep VIDEO and send nothing, so a run of them sends at
    most one event. The state is also a public reflected property: an
    assignment by the host sets it to the assigned value, THUMBNAIL
    included, changes nothing else and sends no event; every exposed step
    that changes the state is the click or such an assignment. *)
Theorem content_state_changes_by_click_or_assignment :
  (forall formatVideoCaption formatVideoDuration,
      contentState (initial formatVideoCaption formatVideoDuration)
      = THUMBNAIL)
  /\ (forall el, contentState el = THUMBNAIL <->
                 exists el' evs, step ddsPrefix el ClickOverlay el' evs)
  /\ (forall el el' evs,
        step ddsPrefix el ClickOverlay el' evs ->
        contentState el = THUMBNAIL
        /\ el' = set_contentState el VIDEO
        /\ evs = [ {| eventName := eventContentStateChange ddsPrefix;
                      bubbles := true;
                      composed := true;
                      detail_videoId := videoId el;
                      detail_contentState := VIDEO |} ])
  /\ (forall el o el' evs,
        step ddsPrefix el o el' evs ->
        contentState el' <> contentState el ->
        o = ClickOverlay
        /\ contentState el = THUMBNAIL /\ contentState el' = VIDEO)
  /\ (forall el os el' evs,
        run ddsPrefix el os el' evs ->
        contentState el = VIDEO ->
        contentState el' = VIDEO /\ evs = [])
  /\ (forall el os el' evs,
        run ddsPrefix el os el' evs -> (List.length evs <= 1)%nat)
  /\ (forall el c el' evs,
        exposedStep ddsPrefix el (AssignContentState c) el' evs ->
        el' = set_contentState el c /\ contentState el' = c /\ evs = [])
  /\ (forall el o el' evs,
        exposedStep ddsPrefix el o el' evs ->
        contentState el' <> contentState el ->
        (o = Own ClickOverlay
         /\ contentState el = THUMBNAIL /\ contentState el' = VIDEO)
        \/ (o = AssignContentState (contentState el') /\ evs = [])).
Proof.
  destruct own_operations_move_forward_only
    as (Hinit & Henabled & Hclick & Hchange & Hstay & Hone).
  assert (Hassign : forall el c el' evs,
             exposedStep ddsPrefix el (AssignContentState c) el' evs ->
             el' = set_contentState el c /\ contentState el' = c /\ evs = []).
  { intros el c el' evs Hstep. inversion Hstep; subst.
    rewrite assignment_sets_contentState. repeat split. }
  split; [ exact Hinit | ].
  split; [ exact Henabled | ].
  split; [ exact Hclick | ].
  split; [ exact Hchange | ].
  split; [ exact Hstay | ].
  split; [ exact Hone | ].
  split; [ exact Hassign | ].
  intros el o el' evs Hstep Hmoved. destruct o as [o | c].
  - left. inversion Hstep as [el0 o0 el0' evs0 Hown | ]; subst.
    destruct (Hchange _ _ _ _ Hown Hmoved) as (-> & Hthumb & Hvideo).
    auto.
  - right. destruct (Hassign _ _ _ _ Hstep) as (_ & <- & ->). auto.
Qed.

End Facts.

(** C8, as stated, fails: the host can assign the public [contentState]
    property, and assigning THUMBNAIL to a playing element moves the state
    from VIDEO back to THUMBNAIL. *)
Lemma host_assignment_moves_state_back :
  ~ (forall (el : element) (o : exposedOp) (el' : element)
            (evs : list stateChange),
        exposedStep "dds" el o el' evs ->
        contentState el = VIDEO ->
        contentState el' = VIDEO).
Proof.
  intros H.
  specialize (H (set_contentState introPlayer VIDEO)
                (AssignContentState THUMBNAIL)
                (updated (set_contentState
                            (set_contentState introPlayer VIDEO) THUMBNAIL)
                         ["contentState"])
                []
                (exposed_assign "dds" (set_contentState introPlayer VIDEO)
                                THUMBNAIL)
                eq_refl).
  discriminate H.
Qed.

(** C9, as stated, fails: when the new caption is empty the label keeps
    the old caption. *)
Lemma empty_caption_is_not_mirrored :
  ~ (forall (el : element) (changed : list string),
        has changed "duration" || has changed "formatCaption"
        || has changed "name" = true ->
        ariaLabel (updated el changed) = Some (caption el)).
Proof.
  intros H.
  specialize (H {| contentState := THUMBNAIL;
                   duration := None;
                   formatCaption := nameThenDuration;
                   formatDuration := fun _ => None;
                   hideCaption := false;
                   name := [];
                   thumbnailUrl := [];
                   videoId := None;
                   aspectRatio := None;
                   ariaLabel := Some (lit "Intro") |}
                ["name"] eq_refl).
  vm_compute in H. discriminate H.
Qed.

(** C9, amended. When the duration, the name or the caption formatter has
    changed, [updated] computes the caption with the caption formatter from
    the formatted duration and the name; a caption that is not empty becomes
    the [aria-label], an empty one leaves the element as it was. [render]
    shows the same caption unless the caption is hidden. *)
Theorem caption_mirrored_when_not_empty
    (el : element) (changed : list string) :
  has changed "duration" || has changed "formatCaption"
  || has changed "name" = true ->
  caption el
  = formatCaption el (formatDuration el (milliseconds (duration el)))
                  (name el)
  /\ (caption el <> [] ->
      updated el changed = setAttribute_ariaLabel el (caption el)
      /\ ariaLabel (updated el changed) = Some (caption el))
  /\ (caption el = [] -> updated el changed = el)
  /\ (hideCaption el = false ->
      captionText (render el) = Some (caption el)).
Proof.
  intros Hchanged. unfold updated. rewrite Hchanged.
  repeat apply conj.
  - reflexivity.
  - destruct (caption el); [ congruence | split; reflexivity ].
  - intros ->. reflexivity.
  - unfold render. intros ->. reflexivity.
Qed.

(** *** The theorems at concrete inputs *)

Lemma click_overlay_witness :
  let playing := set_contentState introPlayer VIDEO in
  (exists el' evs,
      step "dds" introPlayer ClickOverlay el' evs
      /\ el' = playing
      /\ evs = [ {| eventName := "dds-video-player-content-state-changed";
                    bubbles := true; composed := true;
                    detail_videoId := Some (lit "0_uka1msg4");
                    detail_contentState := VIDEO |} ])
  /\ contentState (updated playing ["name"]) = VIDEO
  /\ (List.length (@nil stateChange ++ []) <= 1)%nat
  /\ contentState (updated (set_contentState playing THUMBNAIL)
                           ["contentState"]) = THUMBNAIL
  /\ (AssignContentState THUMBNAIL
      = AssignContentState
          (contentState (updated (set_contentState playing THUMBNAIL)
                                 ["contentState"]))
      /\ @nil stateChange = []).
Proof.
  cbv zeta.
  destruct (content_state_changes_by_click_or_assignment "dds")
    as (_ & Henabled & Hclick & Hchange & Hstay & Hone & Hassign & Hexposed).
  assert (Hrun : run "dds" (set_contentState introPlayer VIDEO)
                     [Updated ["name"]]
                     (updated (set_contentState introPlayer VIDEO) ["name"])
                     ([] ++ [])).
  { eapply run_cons; [ apply step_updated | apply run_nil ]. }
  pose proof (exposed_assign "dds" (set_contentState introPlayer VIDEO)
                             THUMBNAIL) as Hback.
  repeat apply conj.
  - destruct (proj1 (Henabled introPlayer) eq_refl) as [el' [evs Hstep]].
    exists el', evs.
    destruct (Hclick _ _ _ Hstep) as (_ & Hel & Hevs).
    assert (Hmoved : contentState el' <> contentState introPlayer)
      by (rewrite Hel; discriminate).
    destruct (Hchange _ _ _ _ Hstep Hmoved) as (_ & _ & _).
    repeat split; assumption.
  - exact (proj1 (Hstay _ _ _ _ Hrun eq_refl)).
  - exact (Hone _ _ _ _ Hrun).
  - exact (proj1 (proj2 (Hassign _ _ _ _ Hback))).
  - destruct (Hexposed _ _ _ _ Hback) as [(Hown & _) | (Hop & _)];
      [ discriminate | discriminate Hown | exact Hop ].
  - destruct (Hexposed _ _ _ _ Hback) as [(Hown & _) | (_ & Hevs)];
      [ discriminate | discriminate Hown | exact Hevs ].
Defined.

Lemma caption_mirrored_witness :
  ariaLabel (updated introPlayer ["name"]) = Some (lit "Intro (1:30)")
  /\ captionText (render introPlayer) = Some (lit "Intro (1:30)").
Proof.
  destruct (caption_mirrored_when_not_empty introPlayer ["name"] eq_refl)
    as (_ & Hlabel & _ & Hrender).
  split.
  - apply Hlabel. discriminate.
  - apply Hrender. reflexivity.
Defined.

End VideoPlayerFacts.

(* ------------------------------------------------------------------ *)
(** ** More on the masthead search: reducer algebra and handlers *)

Module SearchExtras.

Import JS MastheadSearch SearchFacts.
Local Open Scope string_scope.

#[local] Hint Rewrite reducer_setVal reducer_emptySuggestions
  reducer_setPrevSuggestions reducer_setSuggestionsToPrevious
  reducer_showSuggestionsContainer reducer_hideSuggestionsContainer
  reducer_setSearchOpen reducer_setSearchClosed reducer_setLc
  reducer_setCc : reducer.

(** *** The reducer *)

(** X1. Dispatching an action twice in a row gives the state that
    dispatching it once gives, for every state and action. *)
Theorem reducer_idempotent (st : state) (act : action) :
  _reducer (_reducer st act) act = _reducer st act.
Proof.
  destruct act as [t p]. unfold _reducer. cbn [type payload_of].
  by_kind t; reflexivity.
Qed.

(** X2. Two actions that assign different fields can be dispatched in
    either order, except for setPrevSuggestions next to
    setSuggestionsToPrevious, where the second reads what the first
    writes. *)
Theorem reducer_independent_actions_commute (st : state) (a b : action) :
  assigns (type a) <> assigns (type b) ->
  ~ (type a = "setPrevSuggestions" /\ type b = "setSuggestionsToPrevious") ->
  ~ (type a = "setSuggestionsToPrevious" /\ type b = "setPrevSuggestions") ->
  _reducer (_reducer st a) b = _reducer (_reducer st b) a.
Proof.
  destruct a as [ta pa], b as [tb pb]. cbn [type].
  intros Hfields Hab Hba.
  unfold _reducer. cbn [type payload_of].
  by_kind ta; by_kind tb; try reflexivity;
    try (exfalso; apply Hfields; reflexivity);
    try (exfalso; apply Hab; split; reflexivity);
    try (exfalso; apply Hba; split; reflexivity).
Qed.

(** The excepted pair does not commute. *)
Lemma reducer_cache_then_copy_is_ordered :
  let st := _initialState defaultProps QueryMissing in
  _reducer (_reducer st (setPrevSuggestions cloudComputing))
           setSuggestionsToPrevious
  <> _reducer (_reducer st setSuggestionsToPrevious)
              (setPrevSuggestions cloudComputing).
Proof. cbv zeta. autorewrite with reducer. discriminate. Qed.

(** *** The initial state and the redirect URL *)

(** X3. The initial text is the [initialSearchTerm] prop when it is not
    empty, whatever the page URL holds; otherwise it is the [q] parameter of
    the page URL, and the empty string when the URL has none or cannot be
    read. The open flag starts as the [searchOpenOnload] prop, the list and
    the cache start empty, the panel flag off and the locale en/us. *)
Theorem initial_text_precedence (p : props) (q : queryLookup) :
  (initialSearchTerm p <> [] -> val (_initialState p q) = initialSearchTerm p)
  /\ (initialSearchTerm p = [] ->
      val (_initialState p q)
      = match q with
        | QueryValue v => v
        | QueryMissing | QueryThrows => []
        end)
  /\ isSearchOpen (_initialState p q) = searchOpenOnload p
  /\ suggestions (_initialState p q) = []
  /\ prevSuggestions (_initialState p q) = []
  /\ suggestionContainerVisible (_initialState p q) = false
  /\ lc (_initialState p q) = lit "en"
  /\ cc (_initialState p q) = lit "us".
Proof.
  unfold _initialState, getValueFromQueryString, or_else.
  cbn [val isSearchOpen suggestions prevSuggestions
       suggestionContainerVisible lc cc].
  repeat apply conj; try reflexivity.
  - destruct (initialSearchTerm p); [ congruence | reflexivity ].
  - intros ->. cbn [truthy]. destruct q as [ [ | c v ] | | ]; reflexivity.
Qed.

(** X4. The redirect URL is never empty: an endpoint variable that is unset
    or empty gives the default search URL, any other value is taken as it
    is. *)
Theorem redirectUrl_falls_back_to_default
    (SEARCH_REDIRECT_ENDPOINT : option jsstring) :
  _redirectUrl SEARCH_REDIRECT_ENDPOINT <> []
  /\ (SEARCH_REDIRECT_ENDPOINT = None \/ SEARCH_REDIRECT_ENDPOINT = Some [] ->
      _redirectUrl SEARCH_REDIRECT_ENDPOINT
      = lit "https://www.ibm.com/search?lnk=mhsrch")
  /\ (forall e, SEARCH_REDIRECT_ENDPOINT = Some e -> e <> [] ->
                _redirectUrl SEARCH_REDIRECT_ENDPOINT = e).
Proof.
  unfold _redirectUrl, or_else. repeat apply conj.
  - destruct SEARCH_REDIRECT_ENDPOINT as [ [ | c e ] | ]; discriminate.
  - intros [-> | ->]; reflexivity.
  - intros e -> He. destruct e; [ congruence | reflexivity ].
Qed.

(** *** The search icon and the close button *)

Section Buttons.

Variable SEARCH_REDIRECT_ENDPOINT : option jsstring.
Variable p : props.

(** X5. After a click on the search icon the widget is open and every other
    field of the view state is as before, whether the click opened the
    widget, submitted the text or did nothing. *)
Theorem search_icon_click_leaves_widget_open (w : window) :
  store (run w (searchIconClick SEARCH_REDIRECT_ENDPOINT p (store w)))
  = assign_isSearchOpen (store w) true.
Proof.
  unfold searchIconClick, onSearchNoRedirect, redirectTo.
  destruct w as [href evs [v sg pv vis op l c]]. cbn [store isSearchOpen val].
  destruct op; cbn [negb andb app].
  - destruct (negb (JS.length v =? 0)%Z).
    + destruct (searchNoRedirect p); [ reflexivity | ].
      destruct (getRedirect _ _ _); reflexivity.
    + reflexivity.
  - reflexivity.
Qed.

(** X6. A click on the search icon submits nothing from a closed widget or
    with an empty text: it changes the location only when the widget is
    open, the text is not empty and redirects are not suppressed, and it
    sends [onSearchNoRedirect] only when the widget is open and the text is
    not empty. A closed widget sends [onOpenSearch] alone. *)
Theorem search_icon_click_submits_open_nonempty_only (st : state) :
  let cmds := searchIconClick SEARCH_REDIRECT_ENDPOINT p st in
  (navigationsOf cmds <> [] ->
   isSearchOpen st = true /\ val st <> [] /\ searchNoRedirect p = false)
  /\ (In {| eventName := "onSearchNoRedirect"; bubbles := true;
            detail := Some (val st) |} (eventsOf cmds) ->
      isSearchOpen st = true /\ val st <> [])
  /\ (isSearchOpen st = false ->
      eventsOf cmds = [ {| eventName := "onOpenSearch"; bubbles := true;
                           detail := None |} ]
      /\ navigationsOf cmds = []).
Proof.
  cbv zeta. unfold searchIconClick, onSearchNoRedirect, redirectTo.
  rewrite length_eqb_0, negb_involutive.
  destruct st as [v sg pv vis op l c]. cbn [isSearchOpen val].
  destruct op, v as [ | x v ]; cbn [negb andb app truthy];
    destruct (searchNoRedirect p);
    try destruct (getRedirect _ _ _);
    cbn; repeat apply conj; intros; try congruence; try tauto;
    repeat match goal with
           | H : _ \/ _ |- _ => destruct H
           | H : False |- _ => destruct H
           end; try discriminate; auto;
    repeat split; try reflexivity; discriminate.
Qed.

(** X7. The close button empties the text and closes the widget, and leaves
    the suggestions, the cache, the panel flag, the locale and the location
    as they were; it sends [onSearchCloseClicked] once. This holds also when
    the search icon to focus is not found and the handler ends in an
    error. *)
Theorem close_button_resets_text_and_open_flag
    (w : window) (iconFound : bool) :
  let w' := run w (closeBtnAction iconFound) in
  store w' = assign_val (assign_isSearchOpen (store w) false) []
  /\ locationHref w' = locationHref w
  /\ heard w' = (heard w ++ [ {| eventName := "onSearchCloseClicked";
                                 bubbles := true; detail := None |} ])%list.
Proof.
  cbv zeta. unfold closeBtnAction, resetSearch.
  destruct iconFound; run_cmds; auto.
Qed.

End Buttons.

(** *** White space *)

Local Open Scope list_scope.

Lemma trimStart_all_white_space (s : jsstring) :
  trimStart s = [] <-> Forall (fun c => isWhiteSpace c = true) s.
Proof.
  induction s as [ | c s IH ]; cbn [trimStart].
  - split; [ constructor | reflexivity ].
  - destruct (isWhiteSpace c) eqn:Hc.
    + rewrite IH. split.
      * intros H. constructor; assumption.
      * intros H. inversion H; assumption.
    + split; [ discriminate | ].
      intros H. inversion H; congruence.
Qed.

Lemma trimStart_head (s : jsstring) (c : Z) (r : jsstring) :
  trimStart s = c :: r -> isWhiteSpace c = false.
Proof.
  induction s as [ | x s IH ]; cbn [trimStart]; [ discriminate | ].
  destruct (isWhiteSpace x) eqn:Hx; [ exact IH | ].
  intros [= <- _]. exact Hx.
Qed.

Lemma trimStart_app_white_space (a s : jsstring) :
  Forall (fun c => isWhiteSpace c = true) a ->
  trimStart (a ++ s) = trimStart s.
Proof.
  induction 1 as [ | c a Hc _ IH ]; [ reflexivity | ].
  cbn [app trimStart]. rewrite Hc. exact IH.
Qed.

Lemma trimStart_app_kept (a b : jsstring) :
  trimStart a <> [] -> trimStart (a ++ b) = (trimStart a ++ b)%list.
Proof.
  induction a as [ | x a IH ]; cbn [app trimStart]; [ congruence | ].
  destruct (isWhiteSpace x); [ exact IH | reflexivity ].
Qed.

Lemma trimEnd_app_white_space (s a : jsstring) :
  Forall (fun c => isWhiteSpace c = true) a ->
  trimEnd (s ++ a) = trimEnd s.
Proof.
  intros Ha. unfold trimEnd. rewrite rev_app_distr.
  rewrite trimStart_app_white_space; [ reflexivity | ].
  apply Forall_rev. exact Ha.
Qed.

Lemma trim_all_white_space (s : jsstring) :
  Forall (fun c => isWhiteSpace c = true) s -> trim s = [].
Proof.
  intros Hs. unfold trim.
  rewrite (proj2 (trimStart_all_white_space s) Hs). reflexivity.
Qed.

Lemma trim_app_white_space (before v after : jsstring) :
  Forall (fun c => isWhiteSpace c = true) before ->
  Forall (fun c => isWhiteSpace c = true) after ->
  trim (before ++ v ++ after) = trim v.
Proof.
  intros Hb Ha. unfold trim. rewrite trimStart_app_white_space by exact Hb.
  destruct (trimStart v) as [ | c r ] eqn:Hv.
  - apply trimStart_all_white_space in Hv.
    rewrite (proj2 (trimStart_all_white_space (v ++ after)));
      [ reflexivity | ].
    apply Forall_app. split; assumption.
  - rewrite trimStart_app_kept by congruence.
    rewrite Hv. apply trimEnd_app_white_space. exact Ha.
Qed.

Lemma trim_is_trimmed (s : jsstring) : trimmed (trim s).
Proof.
  unfold trimmed, trim, trimEnd. split.
  - intros c r Heq.
    destruct (trimStart s) as [ | c0 r0 ] eqn:Hs; [ discriminate Heq | ].
    pose proof (trimStart_head s Hs) as Hc0.
    cbn [rev] in Heq.
    assert (Hshape : exists u, trimStart (rev r0 ++ [c0]) = (u ++ [c0])%list).
    { destruct (trimStart (rev r0)) as [ | y u ] eqn:Hr.
      - apply trimStart_all_white_space in Hr.
        rewrite trimStart_app_white_space by exact Hr.
        cbn [trimStart]. rewrite Hc0. exists []. reflexivity.
      - rewrite trimStart_app_kept by congruence.
        rewrite Hr. exists (y :: u). reflexivity. }
    destruct Hshape as [u Hu]. rewrite Hu, rev_app_distr in Heq.
    cbn [rev app] in Heq. injection Heq as <- _. exact Hc0.
  - intros r c Heq.
    apply (f_equal (@rev Z)) in Heq.
    rewrite rev_involutive, rev_app_distr in Heq. cbn [rev app] in Heq.
    apply (trimStart_head _ Heq).
Qed.

Section Gate.

Variable toLowerCase escapeRegExp : jsstring -> jsstring.
Variable p : props.

(** X8. The text handed to the suggestion provider never starts or ends
    with white space, whatever the request holds and whichever provider is
    asked. *)
Theorem provider_is_asked_trimmed_text
    (getResults : jsstring -> reply (list suggestion)) (r : request)
    (searchValue : jsstring) :
  In (CallGetResults searchValue)
     (onSuggestionsFetchRequest toLowerCase escapeRegExp p getResults r)
  \/ In (CallCustomTypeahead searchValue)
        (onSuggestionsFetchRequest toLowerCase escapeRegExp p getResults r) ->
  searchValue = searchValueOf toLowerCase escapeRegExp r
  /\ trimmed searchValue.
Proof.
  unfold onSuggestionsFetchRequest, callTypeahead, searchValueOf,
    _trimAndLower, onSuggestionsClearedRequested.
  intros Hin.
  assert (Heq : searchValue = trim (toLowerCase (escapeRegExp (value r)))).
  { destruct (reason r =? "input-changed").
    - destruct (customTypeaheadApi p) as [api | ].
      + destruct (api _); cbn [In] in Hin;
          repeat match goal with
                 | H : _ \/ _ |- _ => destruct H
                 | H : False |- _ => destruct H
                 end; congruence.
      + destruct (getResults _); cbn [In] in Hin;
          repeat match goal with
                 | H : _ \/ _ |- _ => destruct H
                 | H : False |- _ => destruct H
                 end; congruence.
    - destruct (reason r =? "escape-pressed"); cbn [In] in Hin;
        repeat match goal with
               | H : _ \/ _ |- _ => destruct H
               | H : False |- _ => destruct H
               end; congruence. }
  split; [ exact Heq | ]. rewrite Heq. apply trim_is_trimmed.
Qed.

(** X9. White space around the text does not count for the gate: padding
    the text with white space on either side leaves the answer of
    [shouldRenderSuggestions] unchanged, and a text of white space only
    passes the gate only when [renderValue] is zero or less, in which case
    every text passes. *)
Theorem gate_ignores_surrounding_white_space
    (before v after : jsstring) :
  Forall (fun c => isWhiteSpace c = true) before ->
  Forall (fun c => isWhiteSpace c = true) after ->
  shouldRenderSuggestions p (before ++ v ++ after)
  = shouldRenderSuggestions p v
  /\ shouldRenderSuggestions p (before ++ after)
     = (renderValue p <=? 0)%Z
  /\ ((renderValue p <=? 0)%Z = true ->
      shouldRenderSuggestions p v = true).
Proof.
  intros Hb Ha. unfold shouldRenderSuggestions. repeat apply conj.
  - rewrite trim_app_white_space by assumption. reflexivity.
  - rewrite trim_all_white_space; [ reflexivity | ].
    apply Forall_app. split; assumption.
  - intros Hle. apply Z.leb_le in Hle. apply Z.leb_le.
    unfold JS.length. lia.
Qed.

(** X10. Only a request made because the input changed reaches a provider.
    A request for any other reason makes no remote call and keeps the cache:
    [escape-pressed] empties the list and turns the panel flag off, every
    other reason shows the cached list again. The cache changes only when
    the provider in charge answered with a value, and then it is that
    value. *)
Theorem fetch_reaches_provider_on_input_change_only
    (getResults : jsstring -> reply (list suggestion))
    (w : window) (r : request) :
  let cmds := onSuggestionsFetchRequest toLowerCase escapeRegExp p
                                        getResults r in
  let st' := store (run w cmds) in
  (reason r <> "input-changed" ->
   filter isRemoteCall cmds = []
   /\ prevSuggestions st' = prevSuggestions (store w))
  /\ (reason r = "escape-pressed" ->
      suggestions st' = [] /\ suggestionContainerVisible st' = false)
  /\ (reason r <> "input-changed" -> reason r <> "escape-pressed" ->
      suggestions st' = prevSuggestions (store w)
      /\ suggestionContainerVisible st' = true)
  /\ (prevSuggestions st' <> prevSuggestions (store w) ->
      reason r = "input-changed"
      /\ providerReply toLowerCase escapeRegExp p getResults r
         = Value (prevSuggestions st')).
Proof.
  cbv zeta.
  unfold providerReply, searchValueOf, onSuggestionsFetchRequest,
    callTypeahead, onSuggestionsClearedRequested.
  repeat apply conj.
  - intros Hreason. apply String.eqb_neq in Hreason. rewrite Hreason.
    destruct (reason r =? "escape-pressed"); run_cmds; auto.
  - intros ->. cbn [String.eqb Ascii.eqb Bool.eqb]. run_cmds. auto.
  - intros Hinput Hescape.
    apply String.eqb_neq in Hinput, Hescape. rewrite Hinput, Hescape.
    run_cmds. auto.
  - destruct (String.eqb_spec (reason r) "input-changed") as [Hreason | _].
    + destruct (customTypeaheadApi p) as [api | ]; cbn [snd].
      * destruct (api _); run_cmds; intros H; try congruence. auto.
      * destruct (getResults _); run_cmds; intros H; try congruence. auto.
    + destruct (reason r =? "escape-pressed"); run_cmds; congruence.
Qed.

(** X11. A caller-supplied provider replaces the remote one altogether:
    the remote provider is never called and what it would answer has no
    influence on the commands of the fetch. *)
Theorem custom_provider_replaces_remote
    (api : jsstring -> reply (list suggestion))
    (getResults getResults' : jsstring -> reply (list suggestion))
    (r : request) :
  customTypeaheadApi p = Some api ->
  onSuggestionsFetchRequest toLowerCase escapeRegExp p getResults r
  = onSuggestionsFetchRequest toLowerCase escapeRegExp p getResults' r
  /\ (forall searchValue,
        ~ In (CallGetResults searchValue)
             (onSuggestionsFetchRequest toLowerCase escapeRegExp p
                                        getResults r))
  /\ providerReply toLowerCase escapeRegExp p getResults r
     = api (searchValueOf toLowerCase escapeRegExp r).
Proof.
  intros Hcustom.
  unfold providerReply, onSuggestionsFetchRequest, callTypeahead,
    onSuggestionsClearedRequested.
  rewrite Hcustom. repeat apply conj.
  - reflexivity.
  - intros sv.
    destruct (reason r =? "input-changed").
    + destruct (api _); cbn [In]; intros H;
        repeat match goal with
               | H : _ \/ _ |- _ => destruct H
               | H : False |- _ => destruct H
               end; discriminate.
    + destruct (reason r =? "escape-pressed"); cbn [In]; intros H;
        repeat match goal with
               | H : _ \/ _ |- _ => destruct H
               | H : False |- _ => destruct H
               end; discriminate.
  - reflexivity.
Qed.

End Gate.

(** *** Events and the view state *)

(** Splits a handler into its branches. *)
Ltac split_handler :=
  repeat match goal with
         | |- context [match ?x with
                       | Value _ => _ | Undefined => _ | Rejected => _
                       end] => destruct x
         | |- context [match getRedirect ?e ?s ?v with
                       | Some _ => _ | None => _
                       end] => destruct (getRedirect e s v)
         | |- context [match customTypeaheadApi ?p with
                       | Some _ => _ | None => _
                       end] => destruct (customTypeaheadApi p)
         | |- context [if ?b then _ else _] => destruct b eqn:?
         end.

Ltac unfold_handlers :=
  cbn [handle];
  unfold onChange, onKeyDown, searchIconClick, closeBtnAction, resetSearch,
    onSuggestionsFetchRequest, callTypeahead, onSuggestionsClearedRequested,
    onSuggestionSelected, onSearchNoRedirect, redirectTo, handleHideSearch,
    handleClickOutside, localeEffect_resolved.

Section Events.

Variable toLowerCase escapeRegExp : jsstring -> jsstring.
Variable SEARCH_REDIRECT_ENDPOINT : option jsstring.
Variable p : props.

Lemma handle_text (c : abortController) (e : event) (w : window) :
  val (store (run w (handle toLowerCase escapeRegExp
                            SEARCH_REDIRECT_ENDPOINT p c (store w) e)))
  = textAfter (val (store w)) e.
Proof.
  destruct e; unfold_handlers; cbn [textAfter];
    split_handler; run_cmds; reflexivity.
Qed.

(** X12. Over any run of events the stored text is the value of the last
    input change, or empty if the close button was clicked after it, or the
    text the run started with if neither happened; no other event touches
    the text. *)
Theorem text_is_last_input_unless_closed (i : instance) (es : list event) :
  val (store (page (steps toLowerCase escapeRegExp
                          SEARCH_REDIRECT_ENDPOINT p i es)))
  = fold_left textAfter es (val (store (page i))).
Proof.
  unfold steps. revert i.
  induction es as [ | e es IH ]; intros i; [ reflexivity | ].
  cbn [fold_left]. rewrite IH. unfold step. cbn [page].
  rewrite handle_text. reflexivity.
Qed.

(** X13. An open widget is closed by three events only: Escape while the
    panel flag is off, a click outside the masthead while the text is empty,
    and the close button. *)
Theorem widget_is_closed_by_three_events_only (i : instance) (e : event) :
  isSearchOpen (store (page i)) = true ->
  isSearchOpen (store (page (step toLowerCase escapeRegExp
                                  SEARCH_REDIRECT_ENDPOINT p i e))) = false ->
  (e = DocumentKeyDown "Escape"
   /\ suggestionContainerVisible (store (page i)) = false)
  \/ (exists k, e = DocumentClick k
                /\ mastheadFound k = true
                /\ mastheadContainsTarget k = false
                /\ val (store (page i)) = [])
  \/ (exists iconFound, e = CloseButtonClick iconFound).
Proof.
  destruct i as [w c]. unfold step. cbn [page controller].
  intros Hopen.
  destruct e; unfold_handlers.
  - split_handler; run_cmds; congruence.
  - split_handler; run_cmds; congruence.
  - split_handler; run_cmds; congruence.
  - intros _. right. right. exists iconFound. reflexivity.
  - split_handler; run_cmds; congruence.
  - run_cmds; congruence.
  - split_handler; run_cmds; congruence.
  - destruct (String.eqb_spec key "Escape") as [-> | Hkey].
    + destruct (suggestionContainerVisible (store w)) eqn:Hvis;
        cbn [negb]; run_cmds; [ congruence | ].
      intros _. left. auto.
    + run_cmds. congruence.
  - rewrite length_eqb_0.
    destruct c0 as [found inside].
    cbn [mastheadFound mastheadContainsTarget].
    destruct found, inside, (val (store w)) as [ | x v ];
      cbn [andb negb truthy]; run_cmds; try congruence.
    intros _. right. left.
    exists {| mastheadFound := true; mastheadContainsTarget := false |}.
    auto.
  - split_handler; run_cmds; congruence.
Qed.

(** X14. The language and the country change only when the locale call
    resolves to a value while the controller has not been aborted, and then
    they become the pair of the reply; no other event touches them. *)
Theorem locale_pair_changes_on_reply_only
    (c : abortController) (e : event) (w : window) :
  let w' := run w (handle toLowerCase escapeRegExp
                          SEARCH_REDIRECT_ENDPOINT p c (store w) e) in
  lc (store w') <> lc (store w) \/ cc (store w') <> cc (store w) ->
  exists r, e = LocaleResolved (Value r)
            /\ aborted c = false
            /\ lc (store w') = response_lc r
            /\ cc (store w') = response_cc r.
Proof.
  cbv zeta. destruct e; unfold_handlers;
    try (split_handler; run_cmds; intros [H | H]; congruence).
  destruct response as [r | | ]; [ | run_cmds; intros [H | H]; congruence
                                   | run_cmds; intros [H | H]; congruence ].
  destruct (aborted c) eqn:Hc; cbn [negb];
    run_cmds; [ intros [H | H]; congruence | ].
  intros _. exists r. auto.
Qed.

(** X15. Key presses in the input and the selection of a suggestion never
    change the view state. A key press does something only for Enter with
    redirects suppressed: it then sends [onSearchNoRedirect] with the stored
    text, empty or not, and prevents the default action; in every other
    case it issues no command at all. *)
Theorem key_and_selection_keep_view_state
    (w : window) (key : string) (suggestionValue : jsstring) :
  store (run w (onKeyDown p (store w) key)) = store w
  /\ locationHref (run w (onKeyDown p (store w) key)) = locationHref w
  /\ store (run w (onSuggestionSelected SEARCH_REDIRECT_ENDPOINT p (store w)
                                        suggestionValue)) = store w
  /\ (key = "Enter" -> searchNoRedirect p = true ->
      onKeyDown p (store w) key
      = [ DispatchEvent {| eventName := "onSearchNoRedirect";
                           bubbles := true;
                           detail := Some (val (store w)) |};
          PreventDefault ])
  /\ (key <> "Enter" \/ searchNoRedirect p = false ->
      onKeyDown p (store w) key = []).
Proof.
  unfold onKeyDown, onSuggestionSelected, onSearchNoRedirect, redirectTo.
  repeat apply conj.
  - split_handler; reflexivity.
  - split_handler; reflexivity.
  - split_handler; reflexivity.
  - intros -> ->. reflexivity.
  - intros [Hkey | Hquiet].
    + apply String.eqb_neq in Hkey. rewrite Hkey. reflexivity.
    + rewrite Hquiet. destruct (key =? "Enter"); reflexivity.
Qed.

End Events.

(** *** Percent-encoding and the redirect *)

Lemma encodeURIComponent_unreserved (s : jsstring) :
  Forall (fun c => uriUnreserved c = true) s ->
  encodeURIComponent s = Some s.
Proof.
  induction 1 as [ | c s Hc _ IH ]; [ reflexivity | ].
  rewrite encodeURIComponent_cons, Hc, IH. reflexivity.
Qed.

Section Redirect.

Variable SEARCH_REDIRECT_ENDPOINT : option jsstring.

(** X16. Building the redirect fails exactly on texts with a lone
    surrogate: for a well-formed text the handler assigns the location
    once, for an ill-formed one it ends in a URIError and assigns nothing. *)
Theorem redirect_fails_on_lone_surrogates_only (st : state) (v : jsstring) :
  (wellFormed v = true ->
   exists href, getRedirect SEARCH_REDIRECT_ENDPOINT st v = Some href
                /\ redirectTo SEARCH_REDIRECT_ENDPOINT st v
                   = [SetLocationHref href])
  /\ (wellFormed v = false ->
      getRedirect SEARCH_REDIRECT_ENDPOINT st v = None
      /\ redirectTo SEARCH_REDIRECT_ENDPOINT st v = [Throw URIError]).
Proof.
  unfold redirectTo, getRedirect. split.
  - intros Hwf. pose proof (encodeURIComponent_defined v Hwf) as Hdef.
    destruct (encodeURIComponent v) as [q | ]; [ | congruence ].
    eexists. split; reflexivity.
  - intros Hwf. rewrite (encodeURIComponent_undefined v Hwf).
    split; reflexivity.
Qed.

(** X17. The text cannot alter the parameters of the redirect: the redirect
    string is the redirect URL, [&q=], the encoded text, [&lang=], the
    language, [&cc=] and the country, and the encoded text holds none of the
    characters [& = # ? / +] or a space. A text of unreserved characters
    only is put in unchanged. *)
Theorem redirect_query_cannot_add_parameters
    (st : state) (v href : jsstring) :
  Forall isCodeUnit v ->
  getRedirect SEARCH_REDIRECT_ENDPOINT st v = Some href ->
  exists q,
    href = _redirectUrl SEARCH_REDIRECT_ENDPOINT ++ lit "&q=" ++ q
           ++ lit "&lang=" ++ lc st ++ lit "&cc=" ++ cc st
    /\ (forall c, In c uriDelimiters -> ~ In c q)
    /\ (Forall (fun c => uriUnreserved c = true) v -> q = v).
Proof.
  intros Hunits. unfold getRedirect.
  destruct (encodeURIComponent v) as [q | ] eqn:Hq; [ | discriminate ].
  intros [= <-]. exists q. repeat apply conj.
  - reflexivity.
  - intros c Hc Hin.
    pose proof (encodeURIComponent_alphabet Hunits Hq) as Halpha.
    rewrite Forall_forall in Halpha. specialize (Halpha c Hin).
    unfold uriDelimiters in Hc. cbn [In] in Hc.
    destruct Halpha as [Hu | ->].
    + repeat (destruct Hc as [<- | Hc]; [ discriminate Hu | ]).
      destruct Hc.
    + repeat (destruct Hc as [Hc | Hc]; [ discriminate Hc | ]).
      destruct Hc.
  - intros Hplain.
    rewrite (encodeURIComponent_unreserved Hplain) in Hq. congruence.
Qed.

End Redirect.

(** *** The theorems at concrete inputs *)

Lemma commute_locale_witness :
  let st := openWith (lit "cloud") true in
  _reducer (_reducer st (setLc (lit "fr"))) (setCc (lit "ca"))
  = _reducer (_reducer st (setCc (lit "ca"))) (setLc (lit "fr")).
Proof.
  apply reducer_independent_actions_commute.
  - vm_compute. discriminate.
  - intros [H _]. discriminate H.
  - intros [H _]. discriminate H.
Defined.

Lemma initial_text_witness :
  val (_initialState seededProps (QueryValue (lit "cloud"))) = lit "watson"
  /\ val (_initialState defaultProps (QueryValue (lit "cloud"))) = lit "cloud"
  /\ val (_initialState defaultProps QueryThrows) = [].
Proof.
  cbv zeta. repeat apply conj.
  - apply (proj1 (initial_text_precedence
                    seededProps (QueryValue (lit "cloud")))).
    discriminate.
  - apply (proj1 (proj2 (initial_text_precedence
                           defaultProps (QueryValue (lit "cloud"))))).
    reflexivity.
  - apply (proj1 (proj2 (initial_text_precedence defaultProps QueryThrows))).
    reflexivity.
Defined.

Lemma redirectUrl_witness :
  _redirectUrl (Some []) = lit "https://www.ibm.com/search?lnk=mhsrch"
  /\ _redirectUrl (Some (lit "https://example.org/s?x=1"))
     = lit "https://example.org/s?x=1".
Proof.
  split.
  - apply (proj1 (proj2 (redirectUrl_falls_back_to_default (Some [])))).
    right. reflexivity.
  - apply (proj2 (proj2 (redirectUrl_falls_back_to_default
                           (Some (lit "https://example.org/s?x=1"))))
             (lit "https://example.org/s?x=1")).
    + reflexivity.
    + discriminate.
Defined.

Lemma search_icon_click_witness :
  let closed := assign_isSearchOpen (openWith (lit "cloud") false) false in
  let opened := openWith (lit "cloud") false in
  (eventsOf (searchIconClick None defaultProps closed)
   = [ {| eventName := "onOpenSearch"; bubbles := true; detail := None |} ]
   /\ navigationsOf (searchIconClick None defaultProps closed) = [])
  /\ (isSearchOpen opened = true /\ val opened <> []
      /\ searchNoRedirect defaultProps = false)
  /\ (isSearchOpen opened = true /\ val opened <> []).
Proof.
  cbv zeta.
  pose proof (search_icon_click_submits_open_nonempty_only None defaultProps
                (assign_isSearchOpen (openWith (lit "cloud") false) false))
    as Hclosed.
  pose proof (search_icon_click_submits_open_nonempty_only None defaultProps
                (openWith (lit "cloud") false)) as Hgo.
  pose proof (search_icon_click_submits_open_nonempty_only None
                noRedirectProps (openWith (lit "cloud") false)) as Hquiet.
  cbv zeta in *.
  destruct Hclosed as (_ & _ & Hclosed).
  destruct Hgo as (Hgo & _ & _).
  destruct Hquiet as (_ & Hquiet & _).
  repeat apply conj.
  - apply Hclosed. reflexivity.
  - apply Hclosed. reflexivity.
  - apply Hgo. vm_compute. discriminate.
  - apply Hgo. vm_compute. discriminate.
  - apply Hgo. vm_compute. discriminate.
  - apply Hquiet. vm_compute. auto.
  - apply Hquiet. vm_compute. auto.
Defined.

Lemma provider_text_witness :
  lit "cloud"
  = searchValueOf asciiToLowerCase (fun s => s)
                  {| value := lit " Cloud "; reason := "input-changed" |}
  /\ trimmed (lit "cloud").
Proof.
  apply (provider_is_asked_trimmed_text
           asciiToLowerCase (fun s => s) defaultProps
           (fun _ => Value cloudComputing)
           {| value := lit " Cloud "; reason := "input-changed" |}).
  left. vm_compute. auto.
Defined.

Lemma gate_white_space_witness :
  shouldRenderSuggestions defaultProps ([32; 9] ++ lit "cloud" ++ [160])%Z
  = shouldRenderSuggestions defaultProps (lit "cloud")
  /\ shouldRenderSuggestions defaultProps ([32; 9] ++ [160])%Z
     = (renderValue defaultProps <=? 0)%Z
  /\ shouldRenderSuggestions eagerProps [] = true.
Proof.
  assert (Hbefore : Forall (fun c => isWhiteSpace c = true) [32; 9]%Z)
    by (repeat constructor).
  assert (Hafter : Forall (fun c => isWhiteSpace c = true) [160]%Z)
    by (repeat constructor).
  destruct (gate_ignores_surrounding_white_space defaultProps
              (lit "cloud") Hbefore Hafter) as (Hpad & Hblank & _).
  destruct (gate_ignores_surrounding_white_space eagerProps
              [] Hbefore Hafter) as (_ & _ & Heager).
  repeat apply conj; [ exact Hpad | exact Hblank | ].
  apply Heager. reflexivity.
Defined.

Lemma fetch_reasons_witness :
  let w := emptyWindow (openWith (lit "cloud") true) in
  let fetch r := onSuggestionsFetchRequest asciiToLowerCase (fun s => s)
                   defaultProps (fun _ => Value cloudComputing) r in
  let focused := {| value := lit "cloud"; reason := "input-focused" |} in
  let escaped := {| value := lit "cloud"; reason := "escape-pressed" |} in
  let changed := {| value := lit "cloud"; reason := "input-changed" |} in
  (filter isRemoteCall (fetch focused) = []
   /\ prevSuggestions (store (run w (fetch focused)))
      = prevSuggestions (store w))
  /\ (suggestions (store (run w (fetch escaped))) = []
      /\ suggestionContainerVisible (store (run w (fetch escaped))) = false)
  /\ (suggestions (store (run w (fetch focused)))
      = prevSuggestions (store w)
      /\ suggestionContainerVisible (store (run w (fetch focused))) = true)
  /\ (reason changed = "input-changed"
      /\ providerReply asciiToLowerCase (fun s => s) defaultProps
                       (fun _ => Value cloudComputing) changed
         = Value (prevSuggestions (store (run w (fetch changed))))).
Proof.
  cbv zeta.
  pose proof (fun r => fetch_reaches_provider_on_input_change_only
                asciiToLowerCase (fun s => s) defaultProps
                (fun _ => Value cloudComputing)
                (emptyWindow (openWith (lit "cloud") true)) r) as H.
  cbv zeta in H.
  destruct (H {| value := lit "cloud"; reason := "input-focused" |})
    as (Hquiet & _ & Hshow & _).
  destruct (H {| value := lit "cloud"; reason := "escape-pressed" |})
    as (_ & Hescape & _ & _).
  destruct (H {| value := lit "cloud"; reason := "input-changed" |})
    as (_ & _ & _ & Hcache).
  repeat apply conj.
  - apply Hquiet. discriminate.
  - apply Hquiet. discriminate.
  - apply Hescape. reflexivity.
  - apply Hescape. reflexivity.
  - apply Hshow; discriminate.
  - apply Hshow; discriminate.
  - apply Hcache. vm_compute. discriminate.
  - apply Hcache. vm_compute. discriminate.
Defined.

Lemma custom_provider_witness :
  let r := {| value := lit "cloud"; reason := "input-changed" |} in
  onSuggestionsFetchRequest asciiToLowerCase (fun s => s) customProviderProps
                            (fun _ => Undefined) r
  = onSuggestionsFetchRequest asciiToLowerCase (fun s => s)
                              customProviderProps (fun _ => Rejected) r
  /\ providerReply asciiToLowerCase (fun s => s) customProviderProps
                   (fun _ => Undefined) r
     = Value cloudComputing.
Proof.
  cbv zeta.
  destruct (custom_provider_replaces_remote
              asciiToLowerCase (fun s => s) customProviderProps
              (fun _ => Undefined) (fun _ => Rejected)
              {| value := lit "cloud"; reason := "input-changed" |} eq_refl)
    as (Hsame & _ & Hreply).
  split; assumption.
Defined.

Lemma closing_event_witness :
  let i := {| page := emptyWindow (openWith (lit "cloud") false);
              controller := newAbortController |} in
  (DocumentKeyDown "Escape" = DocumentKeyDown "Escape"
   /\ suggestionContainerVisible (store (page i)) = false)
  \/ (exists k, DocumentKeyDown "Escape" = DocumentClick k
                /\ mastheadFound k = true
                /\ mastheadContainsTarget k = false
                /\ val (store (page i)) = [])
  \/ (exists iconFound, DocumentKeyDown "Escape" = CloseButtonClick iconFound).
Proof.
  exact (widget_is_closed_by_three_events_only
           asciiToLowerCase (fun s => s) None defaultProps
           {| page := emptyWindow (openWith (lit "cloud") false);
              controller := newAbortController |}
           (DocumentKeyDown "Escape") eq_refl eq_refl).
Defined.

Lemma locale_reply_witness :
  let w := emptyWindow (openWith (lit "cloud") true) in
  let french := {| response_lc := lit "fr"; response_cc := lit "ca" |} in
  let w' := run w (handle asciiToLowerCase (fun s => s) None defaultProps
                          newAbortController (store w)
                          (LocaleResolved (Value french))) in
  exists r, LocaleResolved (Value french) = LocaleResolved (Value r)
            /\ aborted newAbortController = false
            /\ lc (store w') = response_lc r
            /\ cc (store w') = response_cc r.
Proof.
  apply (locale_pair_changes_on_reply_only
           asciiToLowerCase (fun s => s) None defaultProps
           newAbortController
           (LocaleResolved
              (Value {| response_lc := lit "fr"; response_cc := lit "ca" |}))
           (emptyWindow (openWith (lit "cloud") true))).
  left. vm_compute. discriminate.
Defined.

Lemma enter_key_witness :
  let w := emptyWindow (openWith [] false) in
  onKeyDown noRedirectProps (store w) "Enter"
  = [ DispatchEvent {| eventName := "onSearchNoRedirect"; bubbles := true;
                       detail := Some [] |};
      PreventDefault ]
  /\ onKeyDown defaultProps (store w) "Enter" = []
  /\ onKeyDown noRedirectProps (store w) "Tab" = [].
Proof.
  cbv zeta.
  pose proof (fun p key => key_and_selection_keep_view_state None p
                (emptyWindow (openWith [] false)) key []) as H.
  destruct (H noRedirectProps "Enter") as (_ & _ & _ & Henter & _).
  destruct (H defaultProps "Enter") as (_ & _ & _ & _ & Hdefault).
  destruct (H noRedirectProps "Tab") as (_ & _ & _ & _ & Hother).
  repeat apply conj.
  - apply Henter; reflexivity.
  - apply Hdefault. right. reflexivity.
  - apply Hother. left. discriminate.
Defined.

Lemma redirect_failure_witness :
  let st := openWith [] true in
  (exists href, getRedirect None st (lit "cloud") = Some href
                /\ redirectTo None st (lit "cloud") = [SetLocationHref href])
  /\ (getRedirect None st [55296%Z] = None
      /\ redirectTo None st [55296%Z] = [Throw URIError]).
Proof.
  cbv zeta. split.
  - apply (proj1 (redirect_fails_on_lone_surrogates_only
                    None (openWith [] true) (lit "cloud"))).
    reflexivity.
  - apply (proj2 (redirect_fails_on_lone_surrogates_only
                    None (openWith [] true) [55296%Z])).
    reflexivity.
Defined.

Lemma redirect_query_witness :
  exists q,
    lit "https://www.ibm.com/search?lnk=mhsrch&q=a%26b%3Dc&lang=en&cc=us"
    = _redirectUrl None ++ lit "&q=" ++ q
      ++ lit "&lang=" ++ lc (openWith [] true)
      ++ lit "&cc=" ++ cc (openWith [] true)
    /\ (forall c, In c uriDelimiters -> ~ In c q)
    /\ (Forall (fun c => uriUnreserved c = true) (lit "a&b=c") ->
        q = lit "a&b=c").
Proof.
  apply (redirect_query_cannot_add_parameters None (openWith [] true)
           (v := lit "a&b=c")).
  - apply lit_code_units.
  - reflexivity.
Defined.

End SearchExtras.

(* ------------------------------------------------------------------ *)
(** ** More on the video player *)

Module VideoPlayerExtras.

Import JS VideoPlayer VideoPlayerFacts.
Local Open Scope string_scope.
Local Open Scope list_scope.

(** *** The [updated] callback *)

(** X18. [updated] changes nothing but the [aria-label] attribute, which
    it sets to the caption or leaves alone: every property, the caption and
    the whole rendering are as before, and running it again with the same
    changes changes nothing more. *)
Theorem updated_touches_aria_label_only
    (el : element) (changed : list string) :
  (updated el changed = el
   \/ updated el changed = setAttribute_ariaLabel el (caption el))
  /\ caption (updated el changed) = caption el
  /\ render (updated el changed) = render el
  /\ updated (updated el changed) changed = updated el changed.
Proof.
  assert (Hcases : updated el changed = el
                   \/ (updated el changed
                       = setAttribute_ariaLabel el (caption el)
                       /\ truthy (caption el) = true
                       /\ has changed "duration"
                          || has changed "formatCaption"
                          || has changed "name" = true)).
  { unfold updated.
    destruct (has changed "duration" || has changed "formatCaption"
              || has changed "name"); [ | left; reflexivity ].
    destruct (truthy (caption el)); [ right | left ]; auto. }
  destruct Hcases as [Hsame | (Hset & Hcaption & Hchanged)].
  - rewrite !Hsame. auto.
  - rewrite Hset. repeat apply conj.
    + right. reflexivity.
    + reflexivity.
    + reflexivity.
    + unfold updated at 1. rewrite Hchanged.
      change (caption (setAttribute_ariaLabel el (caption el)))
        with (caption el).
      rewrite Hcaption. reflexivity.
Qed.

Section Runs.

Variable ddsPrefix : string.

(** X19. The element never gives itself an empty [aria-label]: if the label
    is absent or not empty before a run of clicks and updates, it is absent
    or not empty after it. *)
Theorem aria_label_is_never_set_empty
    (el el' : element) (os : list op) (evs : list stateChange) :
  run ddsPrefix el os el' evs ->
  ariaLabel el <> Some [] ->
  ariaLabel el' <> Some [].
Proof.
  induction 1 as [ | el o el1 evs1 os el2 evs2 Hstep _ IH ];
    [ auto | ].
  intros Hlabel. apply IH. inversion Hstep; subst.
  - exact Hlabel.
  - unfold updated.
    destruct (has changedProperties "duration"
              || has changedProperties "formatCaption"
              || has changedProperties "name"); [ | exact Hlabel ].
    destruct (caption el) as [ | c r ] eqn:Hc; [ exact Hlabel | ].
    cbn [truthy setAttribute_ariaLabel ariaLabel]. discriminate.
Qed.

(** X20. Once the overlay has been clicked, nothing but an assignment of
    THUMBNAIL to the [contentState] property brings it back: after the click
    and any further exposed steps (overlay clicks, updates, assignments of
    [contentState]) among which THUMBNAIL is not assigned, the content is the
    slot and no further event has been sent. The click itself leaves the
    caption and the label as they were. *)
Theorem overlay_is_gone_after_click
    (el el1 el2 : element) (evs evs' : list stateChange)
    (os : list exposedOp) :
  step ddsPrefix el ClickOverlay el1 evs ->
  exposedRun ddsPrefix el1 os el2 evs' ->
  ~ In (AssignContentState THUMBNAIL) os ->
  viewContent (render el2) = Slot
  /\ captionText (render el1) = captionText (render el)
  /\ ariaLabel el1 = ariaLabel el
  /\ evs' = [].
Proof.
  intros Hstep Hrun Hkept. inversion Hstep; subst.
  assert (Hvideo : forall a os' b evs'',
             exposedRun ddsPrefix a os' b evs'' ->
             ~ In (AssignContentState THUMBNAIL) os' ->
             contentState a = VIDEO ->
             contentState b = VIDEO /\ evs'' = []).
  { intros a os' b evs'' Hr.
    induction Hr as [ | a o a1 e1 os' a2 e2 Hs _ IH ]; [ auto | ].
    intros Hnot Ha.
    assert (Hone : contentState a1 = VIDEO /\ e1 = []).
    { inversion Hs as [a0 o0 a0' e0 Hown | a0 c ]; subst.
      - exact (step_from_VIDEO Hown Ha).
      - split; [ | reflexivity ].
        rewrite updated_keeps_contentState. cbn [set_contentState contentState].
        destruct c; [ | reflexivity ].
        exfalso. apply Hnot. left. reflexivity. }
    destruct Hone as [Ha1 ->].
    destruct IH as [Ha2 ->]; [ | exact Ha1 | auto ].
    intros Hin. apply Hnot. right. exact Hin. }
  destruct (Hvideo _ _ _ _ Hrun Hkept eq_refl) as [Hel2 ->].
  repeat split.
  unfold render, _renderContent. cbn [viewContent]. rewrite Hel2.
  reflexivity.
Qed.

(** An assignment of THUMBNAIL does bring the overlay back. *)
Lemma overlay_returns_on_assignment (el : element) :
  exists el',
    exposedStep ddsPrefix (set_contentState el VIDEO)
                (AssignContentState THUMBNAIL) el' []
    /\ viewContent (render el') = ImageOverlay (thumbnailUrl el) (name el).
Proof.
  eexists. split; [ apply exposed_assign | reflexivity ].
Qed.

End Runs.

(** *** The render root *)

Lemma startsWith_prefix (pattern s : jsstring) :
  startsWith pattern s = true <-> exists rest, s = pattern ++ rest.
Proof.
  revert s. induction pattern as [ | a pattern IH ]; intros s.
  - cbn. split; [ intros _; exists s; reflexivity | reflexivity ].
  - destruct s as [ | b s ]; cbn [startsWith].
    + split; [ discriminate | intros [rest H]; discriminate H ].
    + rewrite andb_true_iff, Z.eqb_eq, IH. split.
      * intros [-> [rest ->]]. exists rest. reflexivity.
      * intros [rest [= -> ->]]. split; [ reflexivity | ].
        exists rest. reflexivity.
Qed.

Lemma takeDigits_app (ds rest : jsstring) :
  Forall (fun c => isDigit c = true) ds ->
  takeDigits (ds ++ rest) = ds ++ takeDigits rest.
Proof.
  induction 1 as [ | c ds Hc _ IH ]; [ reflexivity | ].
  cbn [app takeDigits]. rewrite Hc, IH. reflexivity.
Qed.

Lemma execSafari_at_token (digits rest : jsstring) :
  digits <> [] ->
  Forall (fun c => isDigit c = true) digits ->
  takeDigits rest = [] ->
  execSafari (lit "Safari/" ++ digits ++ rest) = Some digits.
Proof.
  intros Hdigits Hall Hrest.
  change (lit "Safari/" ++ digits ++ rest)
    with (83 :: 97 :: 102 :: 97 :: 114 :: 105 :: 47 :: digits ++ rest)%Z.
  cbn [execSafari].
  replace (startsWith (lit "Safari/")
             (83 :: 97 :: 102 :: 97 :: 114 :: 105 :: 47 :: digits ++ rest)%Z)
    with true
    by (symmetry; apply startsWith_prefix; exists (digits ++ rest);
        reflexivity).
  cbn [skipn]. rewrite takeDigits_app by exact Hall.
  rewrite Hrest, app_nil_r.
  destruct digits; [ congruence | reflexivity ].
Qed.

Lemma execSafari_skips (before tail : jsstring) :
  tokenStartsWithin before tail = false ->
  execSafari (before ++ tail) = execSafari tail.
Proof.
  induction before as [ | c before IH ]; [ reflexivity | ].
  cbn [tokenStartsWithin]. intros Hnone.
  apply orb_false_iff in Hnone. destruct Hnone as [Hhere Hlater].
  specialize (IH Hlater).
  unfold safariTokenAt in Hhere.
  change ((c :: before) ++ tail) with (c :: before ++ tail) in *.
  cbn [execSafari].
  destruct (startsWith (lit "Safari/") (c :: before ++ tail));
    [ | exact IH ].
  destruct (takeDigits (skipn 7 (c :: before ++ tail)));
    [ exact IH | discriminate Hhere ].
Qed.

Lemma no_token_within (before tail : jsstring) :
  tokenStartsWithin before tail = false <->
  (forall b1 b2, before = b1 ++ b2 -> b2 <> [] ->
                 safariTokenAt (b2 ++ tail) = false).
Proof.
  induction before as [ | c before IH ]; cbn [tokenStartsWithin].
  - split; [ | reflexivity ].
    intros _ b1 b2 Heq Hb2. symmetry in Heq.
    apply app_eq_nil in Heq. destruct Heq as [_ Heq]. congruence.
  - rewrite orb_false_iff, IH. split.
    + intros [Hhere Hlater] b1 b2 Heq Hb2.
      destruct b1 as [ | x b1 ].
      * cbn [app] in Heq. subst b2. exact Hhere.
      * injection Heq as _ Heq. exact (Hlater b1 b2 Heq Hb2).
    + intros Hall. split.
      * apply (Hall [] (c :: before)); [ reflexivity | discriminate ].
      * intros b1 b2 Heq Hb2.
        apply (Hall (c :: b1) b2); [ rewrite Heq; reflexivity | exact Hb2 ].
Qed.

(** X21. Focus delegation follows the leftmost place of the user agent
    where [Safari/] is followed by a digit. When there is no such place, be
    it that [Safari/] is absent or never followed by a digit, delegation is
    asked for. Otherwise it is asked for exactly when the number spelled by
    the whole run of digits at that place is at most 537; what comes before
    that place, [Safari/] tokens without digits included, does not count. *)
Theorem render_root_delegates_focus_up_to_537
    (userAgent before digits rest : jsstring) :
  ((forall b1 b2, userAgent = b1 ++ b2 -> safariTokenAt b2 = false) ->
   createRenderRoot userAgent = true)
  /\ ((forall b1 b2, before = b1 ++ b2 -> b2 <> [] ->
                     safariTokenAt (b2 ++ lit "Safari/" ++ digits ++ rest)
                     = false) ->
      digits <> [] ->
      Forall (fun c => isDigit c = true) digits ->
      takeDigits rest = [] ->
      createRenderRoot (before ++ lit "Safari/" ++ digits ++ rest)
      = (numberOfDigits digits <=? 537)%Z).
Proof.
  unfold createRenderRoot. split.
  - intros Hnone.
    assert (Hchecked : tokenStartsWithin userAgent [] = false).
    { apply no_token_within. intros b1 b2 Heq _.
      rewrite app_nil_r. exact (Hnone b1 b2 Heq). }
    pose proof (execSafari_skips userAgent [] Hchecked) as Hskip.
    rewrite app_nil_r in Hskip. rewrite Hskip. reflexivity.
  - intros Hfirst Hdigits Hall Hrest.
    rewrite execSafari_skips by (apply no_token_within; exact Hfirst).
    rewrite (@execSafari_at_token digits rest Hdigits Hall Hrest).
    reflexivity.
Qed.

(** *** The theorems at concrete inputs *)

Lemma aria_label_witness :
  ariaLabel (fst (_handleClickOverlay "dds" (updated introPlayer ["name"])))
  <> Some [].
Proof.
  apply (aria_label_is_never_set_empty
           (ddsPrefix := "dds") (el := introPlayer)
           (os := [Updated ["name"]; ClickOverlay])
           (evs := [] ++ snd (_handleClickOverlay
                                "dds" (updated introPlayer ["name"])) ++ [])).
  - eapply run_cons; [ apply step_updated | ].
    eapply run_cons; [ | apply run_nil ].
    eapply step_click. reflexivity.
  - discriminate.
Defined.

Lemma overlay_gone_witness :
  let playing := fst (_handleClickOverlay "dds" introPlayer) in
  viewContent
    (render (updated (set_contentState (updated playing ["name"]) VIDEO)
                     ["contentState"])) = Slot
  /\ captionText (render playing) = captionText (render introPlayer)
  /\ ariaLabel playing = ariaLabel introPlayer
  /\ @nil stateChange ++ [] ++ [] = [].
Proof.
  apply (overlay_is_gone_after_click
           (ddsPrefix := "dds") (el := introPlayer)
           (evs := snd (_handleClickOverlay "dds" introPlayer))
           (os := [Own (Updated ["name"]); AssignContentState VIDEO])).
  - eapply step_click. reflexivity.
  - eapply exposedRun_cons;
      [ apply exposed_own; apply step_updated | ].
    eapply exposedRun_cons; [ apply exposed_assign | apply exposedRun_nil ].
  - intros [H | [H | []]]; discriminate H.
Defined.

Lemma render_root_witness :
  createRenderRoot
    (lit "Mozilla/5.0 (X11; Linux x86_64; rv:90.0) Gecko/20100101 Firefox/90.0")
  = true
  /\ createRenderRoot (lit "Mozilla/5.0 Safari/ (no version)") = true
  /\ createRenderRoot
       (lit "Mozilla/5.0 (Macintosh) AppleWebKit/605.1.15 (KHTML, like Gecko) Version/14.0 "
        ++ lit "Safari/" ++ lit "605" ++ lit ".1.15")
     = false
  /\ createRenderRoot
       (lit "Mozilla/5.0 (X11) AppleWebKit/537.36 (KHTML, like Gecko) Chrome/90.0 "
        ++ lit "Safari/" ++ lit "537" ++ lit ".36")
     = true
  /\ createRenderRoot
       (lit "Safari/x Version/16 "
        ++ lit "Safari/" ++ lit "605" ++ lit ".1.15")
     = false.
Proof.
  assert (Hdigits : forall ds, ds = lit "605" \/ ds = lit "537" ->
                               Forall (fun c => isDigit c = true) ds)
    by (intros ds [-> | ->]; repeat constructor).
  assert (Hnone : forall ua,
             tokenStartsWithin ua [] = false ->
             forall b1 b2, ua = b1 ++ b2 -> safariTokenAt b2 = false).
  { intros ua Hchecked b1 b2 Heq.
    destruct b2 as [ | c b2 ]; [ reflexivity | ].
    rewrite <- (app_nil_r (c :: b2)).
    apply (proj1 (no_token_within ua []) Hchecked b1 (c :: b2) Heq).
    discriminate. }
  repeat apply conj.
  - apply (proj1 (render_root_delegates_focus_up_to_537 _ [] [] [])).
    apply Hnone. reflexivity.
  - apply (proj1 (render_root_delegates_focus_up_to_537 _ [] [] [])).
    apply Hnone. reflexivity.
  - apply (proj2 (render_root_delegates_focus_up_to_537
                    [] _ (lit "605") (lit ".1.15"))).
    + apply no_token_within. reflexivity.
    + discriminate.
    + apply Hdigits. auto.
    + reflexivity.
  - apply (proj2 (render_root_delegates_focus_up_to_537
                    [] _ (lit "537") (lit ".36"))).
    + apply no_token_within. reflexivity.
    + discriminate.
    + apply Hdigits. auto.
    + reflexivity.
  - apply (proj2 (render_root_delegates_focus_up_to_537
                    [] _ (lit "605") (lit ".1.15"))).
    + apply no_token_within. reflexivity.
    + discriminate.
    + apply Hdigits. auto.
    + reflexivity.
Defined.

End VideoPlayerExtras.

(* ------------------------------------------------------------------ *)
(** ** Properties of the lead space *)

Module LeadSpaceFacts.

Import JS LeadSpace.
Local Open Scope string_scope.

Lemma eqb_eq (a b : jsstring) : eqb a b = true <-> a = b.
Proof.
  unfold eqb. destruct (list_eq_dec Z.eq_dec a b); split;
    congruence || discriminate || auto.
Qed.

Lemma eqb_neq (a b : jsstring) : eqb a b = false <-> a <> b.
Proof.
  unfold eqb. destruct (list_eq_dec Z.eq_dec a b); split;
    congruence || discriminate || auto.
Qed.

Lemma append_same_prefix (prefix a b : string) :
  prefix ++ a = prefix ++ b -> a = b.
Proof.
  induction prefix as [ | c prefix IH ]; cbn [String.append];
    [ auto | ].
  intros [= H]. exact (IH H).
Qed.

(** Settles membership of a class name in a class map. *)
Ltac class_membership :=
  unfold classMap; cbn [filter map fst snd In];
  repeat match goal with
         | |- ~ _ => intros ?
         | |- _ -> False => intros ?
         | H : _ \/ _ |- _ => destruct H
         | H : False |- _ => destruct H
         | H : (_ ++ _)%string = (_ ++ _)%string |- _ =>
             apply append_same_prefix in H; discriminate H
         end;
  auto 6.

Section Facts.

Variable prefix : string.
Variable d : defs.

(** X22. The inline background image, the centered-image class and the
    mobile image go together: a centered lead space with an image source
    has all three, with that source and the alternate text, and any other
    lead space has none of them and renders the image slot. *)
Theorem centered_image_parts_go_together (el : element) :
  let v := render prefix d el in
  (defaultSrc el <> [] /\ type el = LEADSPACE_TYPE_CENTERED d ->
   sectionStyle v
   = (lit "background-image: url(" ++ defaultSrc el ++ lit ")")%list
   /\ In (prefix ++ "--leadspace--centered__image") (sectionClass v)
   /\ In (prefix ++ "--leadspace--centered") (sectionClass v)
   /\ imageNode v = MobileImage (defaultSrc el) (alt el))
  /\ (defaultSrc el = [] \/ type el <> LEADSPACE_TYPE_CENTERED d ->
      sectionStyle v = []
      /\ ~ In (prefix ++ "--leadspace--centered__image") (sectionClass v)
      /\ imageNode v = ImageSlot).
Proof.
  cbv zeta. unfold render, _getBackgroundImage, _getTypeClass, _renderImage.
  cbn [sectionStyle sectionClass imageNode]. split.
  - intros [Hsrc Htype]. apply eqb_eq in Htype. rewrite Htype.
    destruct (defaultSrc el) as [ | c r ]; [ congruence | ].
    cbn [truthy andb].
    destruct (eqb (type el) (LEADSPACE_TYPE_SMALL d));
      repeat apply conj; try reflexivity; class_membership.
  - intros Hoff.
    assert (Hcond : truthy (defaultSrc el)
                    && eqb (type el) (LEADSPACE_TYPE_CENTERED d) = false).
    { destruct Hoff as [-> | Htype]; [ reflexivity | ].
      apply eqb_neq in Htype. rewrite Htype. apply andb_false_r. }
    rewrite Hcond. rewrite andb_comm in Hcond. rewrite Hcond.
    destruct (eqb (type el) (LEADSPACE_TYPE_CENTERED d)),
      (eqb (type el) (LEADSPACE_TYPE_SMALL d));
      repeat apply conj; try reflexivity; class_membership.
Qed.

(** X23. The size classes of the container, the copy and the content move
    together: a medium lead space has the three medium classes and no other
    size class, a lead space of the default size member has the three plain
    ones, and any other size value has no size class at all. *)
Theorem size_classes_move_together (el : element) :
  LEADSPACE_SIZE_MEDIUM d <> LEADSPACE_SIZE_NONE d ->
  (size el = LEADSPACE_SIZE_MEDIUM d ->
   _getContainerClass prefix d el
   = [prefix ++ "--leadspace__container--medium"]
   /\ _getCopyType prefix d el = [prefix ++ "--leadspace__desc--medium"]
   /\ _getContentType prefix d el
      = [prefix ++ "--leadspace--content__container--medium"])
  /\ (size el = LEADSPACE_SIZE_NONE d ->
      _getContainerClass prefix d el = [prefix ++ "--leadspace__container"]
      /\ _getCopyType prefix d el = [prefix ++ "--leadspace__desc"]
      /\ _getContentType prefix d el
         = [prefix ++ "--leadspace--content__container"])
  /\ (size el <> LEADSPACE_SIZE_MEDIUM d ->
      size el <> LEADSPACE_SIZE_NONE d ->
      _getContainerClass prefix d el = []
      /\ _getCopyType prefix d el = []
      /\ _getContentType prefix d el = []).
Proof.
  intros Hdistinct.
  unfold _getContainerClass, _getCopyType, _getContentType, classMap.
  repeat apply conj.
  - intros Hsize. rewrite Hsize.
    rewrite (proj2 (eqb_eq _ _) eq_refl).
    rewrite (proj2 (eqb_neq _ _) Hdistinct). repeat split.
  - intros Hsize. rewrite Hsize.
    rewrite (proj2 (eqb_eq _ _) eq_refl).
    rewrite (proj2 (eqb_neq _ _) (not_eq_sym Hdistinct)). repeat split.
  - intros Hmedium Hnone.
    rewrite (proj2 (eqb_neq _ _) Hmedium), (proj2 (eqb_neq _ _) Hnone).
    repeat split.
Qed.

(** X24. The gradient is drawn unless the scheme is the none member, with
    four stops for a centered lead space and three otherwise; so where the
    enumeration keeps its two members apart, a lead space that has the
    gradient class has the gradient drawn. The overlay class is always
    there. *)
Theorem gradient_is_drawn_unless_none (el : element) :
  let v := render prefix d el in
  (gradientStops v = None
   <-> gradientStyleScheme el = LEADSPACE_GRADIENT_STYLE_SCHEME_NONE d)
  /\ (forall stops, gradientStops v = Some stops ->
         List.length stops
         = if eqb (type el) (LEADSPACE_TYPE_CENTERED d) then 4%nat else 3%nat)
  /\ In (prefix ++ "--leadspace__overlay") (overlayClass v)
  /\ (LEADSPACE_GRADIENT_STYLE_SCHEME_WITH_GRADIENT d
      <> LEADSPACE_GRADIENT_STYLE_SCHEME_NONE d ->
      In (prefix ++ "--leadspace--gradient") (overlayClass v) ->
      gradientStops v <> None).
Proof.
  cbv zeta. unfold render, _getGradientClass.
  cbn [gradientStops overlayClass].
  split; [ | split; [ | split ] ].
  - destruct (eqb (gradientStyleScheme el)
                  (LEADSPACE_GRADIENT_STYLE_SCHEME_NONE d)) eqn:Hnone.
    + apply eqb_eq in Hnone. tauto.
    + apply eqb_neq in Hnone.
      split; intros H; [ discriminate H | contradiction ].
  - intros stops.
    destruct (eqb (gradientStyleScheme el)
                  (LEADSPACE_GRADIENT_STYLE_SCHEME_NONE d));
      [ discriminate | ].
    destruct (eqb (type el) (LEADSPACE_TYPE_CENTERED d));
      intros [= <-]; reflexivity.
  - destruct (eqb (gradientStyleScheme el)
                  (LEADSPACE_GRADIENT_STYLE_SCHEME_WITH_GRADIENT d));
      class_membership.
  - intros Hdistinct.
    destruct (eqb (gradientStyleScheme el)
                  (LEADSPACE_GRADIENT_STYLE_SCHEME_WITH_GRADIENT d))
      eqn:Hwith.
    + apply eqb_eq in Hwith. rewrite Hwith.
      rewrite (proj2 (eqb_neq _ _) Hdistinct). discriminate.
    + intros Hin. exfalso. revert Hin. class_membership.
Qed.

End Facts.

(** *** The theorems at concrete inputs *)

Lemma centered_image_witness :
  let plain := initial wordDefs in
  (sectionStyle (render "bx" wordDefs centeredWithImage)
   = lit "background-image: url(hero.jpg)"
   /\ imageNode (render "bx" wordDefs centeredWithImage)
      = MobileImage (lit "hero.jpg") (lit "A skyline"))
  /\ (sectionStyle (render "bx" wordDefs plain) = []
      /\ imageNode (render "bx" wordDefs plain) = ImageSlot).
Proof.
  cbv zeta.
  destruct (centered_image_parts_go_together "bx" wordDefs centeredWithImage)
    as (Hon & _).
  destruct (centered_image_parts_go_together "bx" wordDefs (initial wordDefs))
    as (_ & Hoff).
  cbv zeta in *.
  destruct Hon as (Hstyle & _ & _ & Himage);
    [ split; [ discriminate | reflexivity ] | ].
  destruct Hoff as (Hplain & _ & Hslot); [ left; reflexivity | ].
  repeat split; assumption.
Defined.

Lemma size_classes_witness :
  let tall := initial wordDefs in
  _getContainerClass "bx" wordDefs centeredWithImage
  = ["bx--leadspace__container--medium"]
  /\ _getCopyType "bx" wordDefs tall = []
  /\ _getContentType "bx" wordDefs tall = [].
Proof.
  cbv zeta.
  assert (Hdistinct : LEADSPACE_SIZE_MEDIUM wordDefs
                      <> LEADSPACE_SIZE_NONE wordDefs) by discriminate.
  destruct (@size_classes_move_together "bx" wordDefs centeredWithImage
                                        Hdistinct)
    as (Hmedium & _ & _).
  destruct (@size_classes_move_together "bx" wordDefs (initial wordDefs)
                                        Hdistinct)
    as (_ & _ & Hother).
  destruct (Hmedium eq_refl) as (Hcontainer & _ & _).
  destruct Hother as (_ & Hcopy & Hcontent); [ discriminate | discriminate | ].
  repeat split; assumption.
Defined.

Lemma gradient_witness :
  List.length ["0%"; "27%"; "53%"; "80%"] = 4%nat
  /\ gradientStops (render "bx" wordDefs centeredWithImage) <> None.
Proof.
  destruct (gradient_is_drawn_unless_none "bx" wordDefs centeredWithImage)
    as (_ & Hstops & _ & Hdrawn).
  cbv zeta in *. split.
  - exact (Hstops _ eq_refl).
  - apply Hdrawn; [ discriminate | ]. left. reflexivity.
Defined.

End LeadSpaceFacts.

(* ------------------------------------------------------------------ *)
(** ** Properties of the callout-quote visual test *)

Module CalloutQuoteE2EFacts.

Import JS CalloutQuoteE2E.
Local Open Scope list_scope.

(** X25. A host given in [SELENIUM_HOST] and not empty is the host of the
    test whatever [WEBCOMPONENTS_TESTS] says; without it the host is the
    web-components canary exactly when [WEBCOMPONENTS_TESTS] is the string
    [true], and the React canary otherwise. The host is never empty and
    every scenario opens the same address, the host followed by the default
    story path. *)
Theorem selenium_host_overrides_canary_hosts (e : env) :
  (forall host, SELENIUM_HOST e = Some host -> host <> [] -> _url e = host)
  /\ (SELENIUM_HOST e = None \/ SELENIUM_HOST e = Some [] ->
      (WEBCOMPONENTS_TESTS e = Some (lit "true") ->
       _url e = lit "https://ibmdotcom-web-components-canary.mybluemix.net")
      /\ (WEBCOMPONENTS_TESTS e <> Some (lit "true") ->
          _url e = lit "https://ibmdotcom-react-canary.mybluemix.net"))
  /\ _url e <> []
  /\ (forall scenario, In scenario (scenarios e) ->
         In (Goto (_url e ++ _pathDefault) 100000) scenario).
Proof.
  unfold _url, _urlDefault, _webcomponentsTests, or_else.
  repeat apply conj.
  - intros host -> Hhost. destruct host; [ congruence | reflexivity ].
  - intros Hhost.
    assert (Hfalsy : truthy (match SELENIUM_HOST e with
                             | Some host => host
                             | None => []
                             end) = false)
      by (destruct Hhost as [-> | ->]; reflexivity).
    rewrite Hfalsy. split.
    + intros ->. reflexivity.
    + intros Hother.
      destruct (WEBCOMPONENTS_TESTS e) as [v | ]; [ | reflexivity ].
      destruct (eqb v (lit "true")) eqn:Hv; [ | reflexivity ].
      apply LeadSpaceFacts.eqb_eq in Hv. congruence.
  - destruct (SELENIUM_HOST e) as [ [ | c host ] | ]; cbn [truthy];
      try discriminate;
      destruct (match WEBCOMPONENTS_TESTS e with
                | Some v => eqb v (lit "true")
                | None => false
                end); discriminate.
  - intros scenario Hin. unfold scenarios, loadTheme in Hin.
    cbn [In] in Hin.
    destruct Hin as [<- | [<- | [<- | []]]]; right; left; reflexivity.
Qed.

(** *** The theorem at concrete inputs *)

Lemma selenium_host_witness :
  let local := {| WEBCOMPONENTS_TESTS := Some (lit "true");
                  SELENIUM_HOST := Some (lit "http://localhost:9000") |} in
  let canary := {| WEBCOMPONENTS_TESTS := Some (lit "true");
                   SELENIUM_HOST := None |} in
  let upper := {| WEBCOMPONENTS_TESTS := Some (lit "TRUE");
                  SELENIUM_HOST := Some [] |} in
  _url local = lit "http://localhost:9000"
  /\ _url canary
     = lit "https://ibmdotcom-web-components-canary.mybluemix.net"
  /\ _url upper = lit "https://ibmdotcom-react-canary.mybluemix.net"
  /\ In (Goto (_url canary ++ _pathDefault) 100000)
        (loadTheme canary (lit "g90")).
Proof.
  cbv zeta.
  destruct (selenium_host_overrides_canary_hosts
              {| WEBCOMPONENTS_TESTS := Some (lit "true");
                 SELENIUM_HOST := Some (lit "http://localhost:9000") |})
    as (Hlocal & _).
  destruct (selenium_host_overrides_canary_hosts
              {| WEBCOMPONENTS_TESTS := Some (lit "true");
                 SELENIUM_HOST := None |})
    as (_ & Hcanary & _ & Hgoto).
  destruct (selenium_host_overrides_canary_hosts
              {| WEBCOMPONENTS_TESTS := Some (lit "TRUE");
                 SELENIUM_HOST := Some [] |})
    as (_ & Hupper & _).
  repeat apply conj.
  - apply Hlocal; [ reflexivity | discriminate ].
  - apply Hcanary; [ left; reflexivity | reflexivity ].
  - apply Hupper; [ right; reflexivity | discriminate ].
  - apply Hgoto. right. left. reflexivity.
Defined.

End CalloutQuoteE2EFacts.
